(** * cert-expiry-check: a shallow embedding of [index.js]

    The class [CertExpiryCheck] of [index.js] is embedded method by method.
    JavaScript values, the object heap, the wall clock and the promise
    machinery are made explicit:

    - a JavaScript Number is [NaN] or a rational.  Every Number the program
      computes with is a time value (an integer number of milliseconds), a
      quotient of a time value by [86400000] or the rounding of one of those;
      on these the rational operations agree with IEEE double arithmetic as
      long as the difference of the two time values stays below [2^53] in
      magnitude, which is the case for any certificate date and any present
      clock reading.  Infinities and the negative zero are left out;
    - the host objects the caller passes in are mutable and shared, so they
      live in a heap of objects (string-keyed property maps) and are referred
      to by location;
    - [Date.now()] reads the clock of the world;
    - [https.request] is the environment: it may refuse the options and
      throw at once, inside the executor of the host's promise; otherwise it
      answers the request later with a response event (carrying the raw
      peer certificate) or an error event, in any order across hosts;
    - [Date.parse], the string-to-number conversion, the validation done by
      [https.request] and [setTimeout], and the package version are
      platform data the class uses but does not define; they are parameters
      of the development. *)

From Stdlib Require Import ZArith QArith Qabs Qround Lia.
From stdpp Require Import base gmap strings list fin_maps option.

#[local] Set Warnings "-clear-no-such-hyp".

Local Open Scope Z_scope.

(** ** JavaScript numbers *)

Inductive number :=
  | NaN
  | Num (q : Q).

Definition Int (z : Z) : number := Num (inject_Z z).

Definition num_sub (a b : number) : number :=
  match a, b with
  | Num x, Num y => Num (Qminus x y)
  | _, _ => NaN
  end.

(** [a / b] for a non-zero divisor; a zero divisor would give an infinity or
    [NaN], and the only divisor in the program is the constant [dayInMS]. *)
Definition num_div (a b : number) : number :=
  match a, b with
  | Num x, Num y => if Qeq_bool y 0 then NaN else Num (Qdiv x y)
  | _, _ => NaN
  end.

(** [a <= b] on Numbers: false as soon as one side is [NaN]. *)
Definition num_le (a b : number) : bool :=
  match a, b with
  | Num x, Num y => Qle_bool x y
  | _, _ => false
  end.

(** [Math.round]: the closest integer, ties going towards plus infinity. *)
Definition Math_round (a : number) : number :=
  match a with
  | Num x => Int (Qfloor (Qplus x (1 # 2)))
  | NaN => NaN
  end.

(** Truncation towards zero (ToIntegerOrInfinity on a finite Number). *)
Definition Qtruncate (q : Q) : Z := Z.quot (Qnum q) (Zpos (Qden q)).

(** [TimeClip], applied by the [Date] constructor to its argument. *)
Definition TimeClip (a : number) : number :=
  match a with
  | Num x =>
      if Qle_bool (Qabs x) (inject_Z 8640000000000000)
      then Int (Qtruncate x) else NaN
  | NaN => NaN
  end.

(** ** JavaScript values and the object heap *)

Definition loc := positive.

Inductive value :=
  | VUndefined
  | VNull
  | VBool (b : bool)
  | VNum (n : number)
  | VStr (s : string)
  | VRef (l : loc).

(** ToBoolean. *)
Definition truthy (v : value) : bool :=
  match v with
  | VUndefined | VNull => false
  | VBool b => b
  | VNum NaN => false
  | VNum (Num q) => negb (Qnum q =? 0)
  | VStr s => negb (String.eqb s "")
  | VRef _ => true
  end.

(** [a || b]. *)
Definition js_or (a b : value) : value := if truthy a then a else b.

Abbreviation obj := (gmap string value).
Abbreviation heap := (gmap loc (gmap string value)).

(** [o.k]: an absent property reads as [undefined]. *)
Definition prop (o : obj) (k : string) : value := default VUndefined (o !! k).

(** [l.k] through the heap. *)
Definition get (h : heap) (l : loc) (k : string) : value :=
  prop (default ∅ (h !! l)) k.

(** [l.k = v]: the object at [l] is updated in place. *)
Definition set (h : heap) (l : loc) (k : string) (v : value) : heap :=
  <[l := <[k := v]> (default ∅ (h !! l))]> h.

(** [{}]: a new object at a location that is not in use. *)
Definition alloc (h : heap) : loc * heap :=
  let l := fresh (dom h) in (l, <[l := ∅]> h).

Record World := {
  w_heap : heap;
  w_clock : Z                    (* what [Date.now()] returns *)
}.

(** ** Exceptions *)

Inductive exn :=
  | TypeError (msg : string).

Inductive result (A : Type) :=
  | Ok (a : A)
  | Throw (e : exn).
Arguments Ok {A} a.
Arguments Throw {A} e.

#[global] Instance result_ret : MRet result := λ A a, Ok a.

#[global] Instance result_bind : MBind result := λ A B f m,
  match m with
  | Ok a => f a
  | Throw e => Throw e
  end.

(** ** Platform data used by the class *)

Record Platform := {
  (** [Date.parse(v)]: a time value, or [NaN] for what it cannot read. *)
  Date_parse : value → number;
  (** ToNumber on a string. *)
  StringToNumber : string → number;
  (** What [https.request(options, callback)] throws at once, if it throws,
      for the options object at the given location (it validates the port,
      the header values, the method, ...). *)
  https_request_throws : heap → loc → option value;
  (** What [req.setTimeout(msecs)] throws at once, if it throws. *)
  setTimeout_throws : number → option value;
  (** [require('./package').version]. *)
  VERSION : string
}.

(** ** Data of the program *)

(** A [Date] object, reduced to its time value ([NaN] for an invalid date). *)
Record Date := { time_value : number }.

(** [this.config]; the field types are those of the constructor's JSDoc. *)
Record Config := {
  timeout : number;
  defaultPort : number;
  defaultAlertWindowDays : number;
  userAgent : string
}.

(** The caller's optional [config] argument of the constructor. *)
Record ConfigArg := {
  arg_timeout : option number;
  arg_defaultPort : option number;
  arg_defaultAlertWindowDays : option number;
  arg_userAgent : option string
}.

(** The object [getExpiry] returns. *)
Record Expiry := {
  days : number;
  milliseconds : number;
  isExpired : bool;
  isInAlertWindow : bool
}.

(** [raw.subject] and [raw.issuer], when they are objects. *)
Record RawName := {
  O : value;
  CN : value
}.

(** The raw peer certificate handed over by the connection.  [subject] and
    [issuer] are [None] when the property is absent; any other absent
    property reads as [undefined]. *)
Record RawCert := {
  subject : option RawName;
  issuer : option RawName;
  subjectaltname : value;
  valid_from : value;
  valid_to : value
}.

Record SubjectDetails := {
  s_org : value;
  s_commonName : value;
  s_altName : value
}.

Record IssuerDetails := {
  i_org : value;
  i_commonName : value
}.

Record Details := {
  d_subject : SubjectDetails;
  d_issuer : IssuerDetails
}.

(** The object [hydrateResultObject] returns; [host] is the reference it was
    given. *)
Record CheckResult := {
  host : loc;
  details : Details;
  validFrom : Date;
  validTo : Date;
  expiry : Expiry
}.

(** ** Promises and the environment *)

Inductive pstate (A : Type) :=
  | Pending
  | Fulfilled (a : A)
  | Rejected (e : value).
Arguments Pending {A}.
Arguments Fulfilled {A} a.
Arguments Rejected {A} e.

(** A request made: [https.request] accepted the options object, which is
    the host object itself, the timeout was set on it and it was ended. *)
Record Request := {
  req_options : loc;
  req_timeout : number
}.

(** What the environment does later with the request of the host at index
    [i]: it calls the response callback with a connection whose peer
    certificate is [raw], or it emits ['error'] with [e].  [t] is the clock
    reading at that moment.  An event for a host whose request was not made
    finds the promise of that host settled. *)
Inductive Event :=
  | Response (i : nat) (raw : RawCert) (t : Z)
  | ErrorEvent (i : nat) (e : value) (t : Z).

(** The array [Promise.all] fills: a slot is [None] until its promise is
    fulfilled. *)
Abbreviation slots := (list (option CheckResult)).

(** The error of the first rejected promise of a list, if there is one. *)
Fixpoint first_rejected (ps : list (pstate CheckResult)) : option value :=
  match ps with
  | [] => None
  | Rejected e :: _ => Some e
  | _ :: ps => first_rejected ps
  end.

(** A call of [checkHosts] in progress. *)
Record Run := {
  r_heap : heap;
  r_hosts : list loc;                    (* the array [buildHostConfig] returned *)
  r_requests : list Request;             (* the requests made, in order *)
  r_promises : list (pstate CheckResult);  (* one promise per host *)
  r_values : slots;                      (* [Promise.all]: the values *)
  r_remaining : nat;                     (* [Promise.all]: promises still awaited *)
  r_all : pstate slots;                  (* the promise [checkHosts] returned *)
  r_uncaught : list exn                  (* exceptions that left a callback *)
}.

Module CertExpiryCheck.

Section Methods.

Variable P : Platform.

(** ToNumber. *)
Definition ToNumber (v : value) : number :=
  match v with
  | VUndefined => NaN
  | VNull => Int 0
  | VBool b => if b then Int 1 else Int 0
  | VNum n => n
  | VStr s => StringToNumber P s
  | VRef _ => NaN                (* a plain object: "[object Object]" *)
  end.

(** [constructor(config = {})]: [Object.assign] of the argument over the
    defaults. *)
Definition constructor (config : ConfigArg) : Config :=
  {| timeout := default (Int 5000) (arg_timeout config);
     defaultPort := default (Int 443) (arg_defaultPort config);
     defaultAlertWindowDays :=
       default (Int 30) (arg_defaultAlertWindowDays config);
     userAgent :=
       default ("SSL Certificate Expiry Checker " +:+ VERSION P)
               (arg_userAgent config) |}.

(** [parseDate(dateString)]. *)
Definition parseDate (dateString : value) : Date :=
  {| time_value := TimeClip (Date_parse P dateString) |}.

Definition dayInMS : number := Int 86400000.

(** [getExpiry(then, host)]. *)
Definition getExpiry (then_ : Date) (hostRef : loc) (w : World) : Expiry :=
  let now := Int (w_clock w) in
  let daysToExpiry :=
    Math_round (num_div (num_sub (time_value then_) now) dayInMS) in
  {| days := daysToExpiry;
     milliseconds := Math_round (num_sub (time_value then_) now);
     isExpired := num_le daysToExpiry (Int 0);
     isInAlertWindow :=
       num_le daysToExpiry
              (ToNumber (get (w_heap w) hostRef "alertWindowDays")) |}.

(** [raw.subject.O] and the like: reading a property of [undefined]
    throws. *)
Definition member (o : option RawName) (name : string) : result RawName :=
  match o with
  | Some x => Ok x
  | None =>
      Throw (TypeError ("Cannot read properties of undefined: " +:+ name))
  end.

(** [hydrateResultObject(raw, host)]; the properties of the object literal
    are evaluated from top to bottom. *)
Definition hydrateResultObject (raw : RawCert) (hostRef : loc) (w : World)
  : result CheckResult :=
  sO ← member (subject raw) "subject";
  sCN ← member (subject raw) "subject";
  iO ← member (issuer raw) "issuer";
  iCN ← member (issuer raw) "issuer";
  mret
    {| host := hostRef;
       details :=
         {| d_subject :=
              {| s_org := O sO;
                 s_commonName := CN sCN;
                 s_altName := subjectaltname raw |};
            d_issuer :=
              {| i_org := O iO;
                 i_commonName := CN iCN |} |};
       validFrom := parseDate (valid_from raw);
       validTo := parseDate (valid_to raw);
       expiry := getExpiry (parseDate (valid_to raw)) hostRef w |}.

(** The callback of [hosts.map] in [buildHostConfig]: the host object is
    updated in place and returned. *)
Definition buildHost (cfg : Config) (hostRef : loc) (h : heap) : loc * heap :=
  let h1 :=
    set h hostRef "port"
        (js_or (get h hostRef "port") (VNum (defaultPort cfg))) in
  let h2 :=
    set h1 hostRef "alertWindowDays"
        (js_or (get h1 hostRef "alertWindowDays")
               (VNum (defaultAlertWindowDays cfg))) in
  let '(hd, h3) := alloc h2 in
  let h4 := set h3 hostRef "headers" (VRef hd) in
  let h5 :=
    match get h4 hostRef "headers" with
    | VRef r =>
        set h4 r "User-Agent"
            (js_or (get h4 hostRef "userAgent") (VStr (userAgent cfg)))
    | _ => h4                    (* not reached: [headers] was just assigned *)
    end in
  (hostRef, h5).

(** [buildHostConfig(hosts)]: [hosts.map], left to right. *)
Fixpoint buildHostConfig (cfg : Config) (hosts : list loc) (h : heap)
  : list loc * heap :=
  match hosts with
  | [] => ([], h)
  | hostRef :: rest =>
      let '(r, h1) := buildHost cfg hostRef h in
      let '(rs, h2) := buildHostConfig cfg rest h1 in
      (r :: rs, h2)
  end.

(** [checkHost(host)]: the executor of the new promise runs at once.  An
    exception thrown in it, by [https.request] or by [req.setTimeout],
    rejects the promise on the spot, and the statements after the throw are
    not reached: the request is not made.  Otherwise the request is made
    and the promise is pending.  The state threaded through is the heap,
    the requests made so far and the promises created so far. *)
Definition checkHost (cfg : Config) (hostRef : loc)
    (st : heap * list Request * list (pstate CheckResult))
  : heap * list Request * list (pstate CheckResult) :=
  let '(h, reqs, ps) := st in
  let h1 := set h hostRef "method" (VStr "GET") in
  match https_request_throws P h1 hostRef with
  | Some e => (h1, reqs, ps ++ [Rejected e])
  | None =>
      match setTimeout_throws P (timeout cfg) with
      | Some e => (h1, reqs, ps ++ [Rejected e])
      | None =>
          (h1,
           reqs ++ [{| req_options := hostRef; req_timeout := timeout cfg |}],
           ps ++ [Pending])
      end
  end.

(** [Promise.all]'s reaction to the fulfilment of the promise at index [i]. *)
Definition resolveElement (i : nat) (x : CheckResult) (run : Run) : Run :=
  let values := <[i := Some x]> (r_values run) in
  let remaining := pred (r_remaining run) in
  {| r_heap := r_heap run;
     r_hosts := r_hosts run;
     r_requests := r_requests run;
     r_promises := r_promises run;
     r_values := values;
     r_remaining := remaining;
     r_all :=
       match r_all run with
       | Pending => if Nat.eqb remaining 0 then Fulfilled values else Pending
       | settled => settled
       end;
     r_uncaught := r_uncaught run |}.

(** [Promise.all]'s reaction to a rejection. *)
Definition rejectAll (e : value) (run : Run) : Run :=
  {| r_heap := r_heap run;
     r_hosts := r_hosts run;
     r_requests := r_requests run;
     r_promises := r_promises run;
     r_values := r_values run;
     r_remaining := r_remaining run;
     r_all :=
       match r_all run with
       | Pending => Rejected e
       | settled => settled
       end;
     r_uncaught := r_uncaught run |}.

Definition settle (i : nat) (s : pstate CheckResult) (run : Run) : Run :=
  {| r_heap := r_heap run;
     r_hosts := r_hosts run;
     r_requests := r_requests run;
     r_promises := <[i := s]> (r_promises run);
     r_values := r_values run;
     r_remaining := r_remaining run;
     r_all := r_all run;
     r_uncaught := r_uncaught run |}.

Definition uncaught (e : exn) (run : Run) : Run :=
  {| r_heap := r_heap run;
     r_hosts := r_hosts run;
     r_requests := r_requests run;
     r_promises := r_promises run;
     r_values := r_values run;
     r_remaining := r_remaining run;
     r_all := r_all run;
     r_uncaught := r_uncaught run ++ [e] |}.

(** [resolve(x)] on the promise of the host at index [i]: a promise that is
    settled ignores it; otherwise it is fulfilled and [Promise.all] reacts. *)
Definition resolve (i : nat) (x : CheckResult) (run : Run) : Run :=
  match r_promises run !! i with
  | Some Pending => resolveElement i x (settle i (Fulfilled x) run)
  | _ => run
  end.

(** [reject(e)] on the promise of the host at index [i]. *)
Definition reject (i : nat) (e : value) (run : Run) : Run :=
  match r_promises run !! i with
  | Some Pending => rejectAll e (settle i (Rejected e) run)
  | _ => run
  end.

(** One event of the environment.  The response callback of [checkHost] is
    [resolve(_hydrate(res.connection.getPeerCertificate(), host))]: the
    certificate is hydrated first, and an exception of [_hydrate] leaves
    the callback before [resolve] is reached.  The ['error'] listener is
    [reject]. *)
Definition step (run : Run) (ev : Event) : Run :=
  match ev with
  | Response i raw t =>
      match r_hosts run !! i with
      | Some hostRef =>
          match hydrateResultObject raw hostRef
                  {| w_heap := r_heap run; w_clock := t |} with
          | Ok x => resolve i x run
          | Throw e => uncaught e run
          end
      | None => run
      end
  | ErrorEvent i e t => reject i e run
  end.

(** The promise [Promise.all] returns, once the reactions to the promises
    that are already settled have run: it is fulfilled for no promise at
    all, and rejected by the first promise, in the order of the array, that
    was rejected in its executor. *)
Definition all_start (ps : list (pstate CheckResult)) : pstate slots :=
  match ps with
  | [] => Fulfilled []
  | _ =>
      match first_rejected ps with
      | Some e => Rejected e
      | None => Pending
      end
  end.

(** [checkHosts(hosts)] before any event of the environment: the
    configuration is built, then [checkHost] is mapped over it (every
    executor runs, also after one has thrown), then [Promise.all] is set
    up. *)
Definition checkHosts_start (cfg : Config) (hosts : list loc) (h : heap)
  : Run :=
  let '(resolved, h1) := buildHostConfig cfg hosts h in
  let '(h2, reqs, ps) := foldl (λ st hostRef, checkHost cfg hostRef st)
                               (h1, [], []) resolved in
  let n := length resolved in
  {| r_heap := h2;
     r_hosts := resolved;
     r_requests := reqs;
     r_promises := ps;
     r_values := replicate n None;
     r_remaining := n;
     r_all := all_start ps;
     r_uncaught := [] |}.

(** [checkHosts(hosts)], run against the events of the environment. *)
Definition checkHosts (cfg : Config) (hosts : list loc) (h : heap)
    (events : list Event) : Run :=
  foldl step (checkHosts_start cfg hosts h) events.

End Methods.

End CertExpiryCheck.

Import CertExpiryCheck.

(** ** Sample data for the examples

    [Date.parse] on a handful of certificate date strings (the format is the
    one the connection reports, [MMM D HH:mm:ss YYYY GMT]) and the
    conversions of two numeric strings.  Everything else is mapped to
    [NaN], which is right for the one other string the examples use,
    ["not a date"]. *)

Definition sample_Date_parse (v : value) : number :=
  match v with
  | VStr s =>
      if String.eqb s "Oct 3 00:00:00 2019 GMT" then Int 1570060800000
      else if String.eqb s "Dec 27 00:00:00 2019 GMT" then Int 1577404800000
      else if String.eqb s "Jan 1 00:00:00 2020 GMT" then Int 1577836800000
      else if String.eqb s "Mar 1 00:00:00 2020 GMT" then Int 1583020800000
      else NaN
  | _ => NaN
  end.

Definition sample_StringToNumber (s : string) : number :=
  if String.eqb s "30" then Int 30
  else if String.eqb s "120" then Int 120
  else NaN.

(** [https.request] refuses a numeric port outside [0 .. 65535] with a
    [RangeError], given here by its code. *)
Definition sample_https_request_throws (h : heap) (l : loc) : option value :=
  match get h l "port" with
  | VNum (Num q) =>
      if Qle_bool 0 q && Qle_bool q (inject_Z 65535) then None
      else Some (VStr "ERR_SOCKET_BAD_PORT")
  | _ => None
  end.

(** [setTimeout] refuses a negative or non-finite duration. *)
Definition sample_setTimeout_throws (msecs : number) : option value :=
  match msecs with
  | Num q => if Qle_bool 0 q then None else Some (VStr "ERR_OUT_OF_RANGE")
  | NaN => Some (VStr "ERR_OUT_OF_RANGE")
  end.

Definition sample_platform : Platform :=
  {| Date_parse := sample_Date_parse;
     StringToNumber := sample_StringToNumber;
     https_request_throws := sample_https_request_throws;
     setTimeout_throws := sample_setTimeout_throws;
     VERSION := "1.0.0" |}.

(** 2020-01-01T00:00:00Z. *)
Definition sample_now : Z := 1577836800000.

Definition google : obj := {[ "hostname" := VStr "www.google.com" ]}.

Definition facebook : obj :=
  <[ "port" := VNum (Int 0) ]>
    (<[ "alertWindowDays" := VNum (Int 120) ]>
       {[ "hostname" := VStr "www.facebook.com" ]}).

(** Two host objects of the caller, at locations 1 and 2. *)
Definition sample_heap : heap := <[ 2%positive := facebook ]> {[ 1%positive := google ]}.

(** A host with a port no request can be made to. *)
Definition unreachable : obj :=
  <[ "port" := VNum (Int 70000) ]>
    {[ "hostname" := VStr "www.example.com" ]}.

(** The same heap with a third host object, at location 3. *)
Definition sample_heap3 : heap := <[ 3%positive := unreachable ]> sample_heap.

Definition sample_cert : RawCert :=
  {| subject :=
       Some {| O := VStr "Org name"; CN := VStr "Common name" |};
     issuer :=
       Some {| O := VUndefined; CN := VStr "Issuer common name" |};
     subjectaltname := VStr "Alt name";
     valid_from := VStr "Oct 3 00:00:00 2019 GMT";
     valid_to := VStr "Mar 1 00:00:00 2020 GMT" |}.

(** The peer certificate of a connection whose peer sent none: [{}]. *)
Definition empty_cert : RawCert :=
  {| subject := None;
     issuer := None;
     subjectaltname := VUndefined;
     valid_from := VUndefined;
     valid_to := VUndefined |}.

(** A certificate whose [valid_to] is not a date. *)
Definition undated_cert : RawCert :=
  {| subject :=
       Some {| O := VStr "Org name"; CN := VStr "Common name" |};
     issuer :=
       Some {| O := VUndefined; CN := VStr "Issuer common name" |};
     subjectaltname := VStr "Alt name";
     valid_from := VStr "Oct 3 00:00:00 2019 GMT";
     valid_to := VStr "not a date" |}.

(** A certificate that ended five days before [sample_now]. *)
Definition expired_cert : RawCert :=
  {| subject :=
       Some {| O := VStr "Org name"; CN := VStr "Common name" |};
     issuer :=
       Some {| O := VUndefined; CN := VStr "Issuer common name" |};
     subjectaltname := VStr "Alt name";
     valid_from := VStr "Oct 3 00:00:00 2019 GMT";
     valid_to := VStr "Dec 27 00:00:00 2019 GMT" |}.

Definition default_config : Config :=
  constructor sample_platform
    {| arg_timeout := None;
       arg_defaultPort := None;
       arg_defaultAlertWindowDays := None;
       arg_userAgent := None |}.

(** ** Predicates used in the statements *)

(** The properties configuration leaves alone. *)
Definition untouched (k : string) : Prop :=
  k ≠ "port" ∧ k ≠ "alertWindowDays" ∧ k ≠ "headers".

(** The host at [l] in [h] is the host at [l] in [h0] after configuration
    with [cfg]. *)
Definition resolved (cfg : Config) (h0 h : heap) (l : loc) : Prop :=
  get h l "port" = js_or (get h0 l "port") (VNum (defaultPort cfg))
  ∧ get h l "alertWindowDays"
    = js_or (get h0 l "alertWindowDays") (VNum (defaultAlertWindowDays cfg))
  ∧ (∃ hd : loc,
       (hd ∉ dom h0) ∧ hd ∈ dom h
       ∧ get h l "headers" = VRef hd
       ∧ get h hd "User-Agent"
         = js_or (get h0 l "userAgent") (VStr (userAgent cfg)))
  ∧ (∀ k, untouched k → get h l k = get h0 l k).

(** The slot [Promise.all] holds for a promise. *)
Definition value_of (p : pstate CheckResult) : option CheckResult :=
  match p with
  | Fulfilled x => Some x
  | _ => None
  end.

(** The number of promises that are not fulfilled. *)
Fixpoint awaited (ps : list (pstate CheckResult)) : nat :=
  match ps with
  | [] => 0
  | Fulfilled _ :: ps => awaited ps
  | _ :: ps => S (awaited ps)
  end.

Definition event_index (ev : Event) : nat :=
  match ev with
  | Response i _ _ => i
  | ErrorEvent i _ _ => i
  end.

(** The first event for the request of the host at index [i]. *)
Fixpoint first_event (i : nat) (events : list Event) : option Event :=
  match events with
  | [] => None
  | ev :: rest =>
      if Nat.eqb (event_index ev) i then Some ev else first_event i rest
  end.

(** The hosts whose request was made: those whose promise is pending when
    [checkHosts] returns. *)
Fixpoint requested (hosts : list loc) (ps : list (pstate CheckResult))
  : list loc :=
  match hosts, ps with
  | l :: hosts, Pending :: ps => l :: requested hosts ps
  | _ :: hosts, _ :: ps => requested hosts ps
  | _, _ => []
  end.

(** No per-host promise is rejected. *)
Definition none_rejected (run : Run) : Prop :=
  ∀ i e, r_promises run !! i ≠ Some (Rejected e).

(** What holds of a call of [checkHosts] at any moment: the bookkeeping of
    [Promise.all] agrees with the per-host promises. *)
Definition consistent (run : Run) : Prop :=
  length (r_promises run) = length (r_hosts run)
  ∧ r_values run = value_of <$> r_promises run
  ∧ r_remaining run = awaited (r_promises run)
  ∧ (∀ i x, r_promises run !! i = Some (Fulfilled x) →
            r_hosts run !! i = Some (host x))
  ∧ match r_all run with
    | Pending => none_rejected run ∧ (0 < r_remaining run)%nat
    | Fulfilled vs => vs = r_values run ∧ r_remaining run = 0%nat
    | Rejected _ => ∃ i e, r_promises run !! i = Some (Rejected e)
    end.

(** ** Proof steps that recur *)

(** Settles the [decide] tests that reading a property back leaves. *)
Ltac decide_cases :=
  repeat case_decide; destruct_and?; simplify_eq; try done;
  try solve [intuition congruence].

(** Membership of the sample hosts in the sample heap. *)
Ltac sample_hosts :=
  let l := fresh "l" in
  let Hl := fresh "Hl" in
  intros l Hl;
  repeat (apply elem_of_cons in Hl as [->|Hl]);
  [ apply elem_of_dom; eexists; reflexivity ..
  | by apply elem_of_nil in Hl ].

(** No promise of a sample call (of three hosts at most) is rejected. *)
Ltac sample_made :=
  intros [|[|[|?]]] ?; vm_compute; discriminate.

(** ** Numbers *)

Lemma num_sub_Int a b : Math_round (num_sub (Int a) (Int b)) = Int (a - b).
Proof.
  unfold Math_round, num_sub, Int. do 2 f_equal.
  unfold Qfloor, Qminus, Qplus, Qopp, inject_Z; simpl.
  rewrite !Z.mul_1_r. Z.div_mod_to_equations. lia.
Qed.

Lemma Math_round_days (a b : Z) :
  Math_round (num_div (num_sub (Int a) (Int b)) dayInMS)
  = Int ((2 * (a - b) + 86400000) / 172800000).
Proof.
  unfold Math_round, num_div, num_sub, dayInMS, Int. simpl.
  do 2 f_equal. unfold Qfloor, Qdiv, Qmult, Qplus, Qminus, Qopp, Qinv, inject_Z; simpl.
  f_equal. lia.
Qed.

Lemma num_le_Int a b : num_le (Int a) (Int b) = (a <=? b).
Proof.
  unfold num_le, Int, Qle_bool, inject_Z; simpl. by rewrite !Z.mul_1_r.
Qed.

(** The integer [k] closest to [d / 86400000], ties going up. *)
Lemma nearest_day (d : Z) :
  let k := (2 * d + 86400000) / 172800000 in
  86400000 * (2 * k - 1) <= 2 * d < 86400000 * (2 * k + 1).
Proof. intros k. subst k. Z.div_mod_to_equations. lia. Qed.

(** ** The expiry computation *)

(** C1.  For a valid [validTo] date, a clock reading [now] and an integer
    [alertWindowDays] on the host, [getExpiry] returns [days] equal to the
    integer closest to [(validTo - now) / 86400000] (ties rounded up),
    [milliseconds = validTo - now], [isExpired = (days <= 0)] and
    [isInAlertWindow = (days <= alertWindowDays)].  A certificate ending
    60 days after [now] gives [days = 60], not expired; one that ended
    5 days before [now] gives [days = -5], expired. *)
Theorem getExpiry_spec (P : Platform) (validTo now awd : Z)
    (h : heap) (hostRef : loc) :
  get h hostRef "alertWindowDays" = VNum (Int awd) →
  let e := getExpiry P {| time_value := Int validTo |} hostRef
                     {| w_heap := h; w_clock := now |} in
  ∃ d : Z,
    86400000 * (2 * d - 1) <= 2 * (validTo - now) < 86400000 * (2 * d + 1)
    ∧ days e = Int d
    ∧ milliseconds e = Int (validTo - now)
    ∧ isExpired e = (d <=? 0)
    ∧ isInAlertWindow e = (d <=? awd)
    ∧ (validTo = now + 60 * 86400000 → d = 60 ∧ isExpired e = false)
    ∧ (validTo = now - 5 * 86400000 → d = -5 ∧ isExpired e = true).
Proof.
  intros Hawd e.
  exists ((2 * (validTo - now) + 86400000) / 172800000).
  pose proof (nearest_day (validTo - now)) as Hk. simpl in Hk.
  subst e. unfold getExpiry. cbn [days milliseconds isExpired isInAlertWindow
    w_heap w_clock time_value].
  rewrite Hawd, Math_round_days, num_sub_Int. cbn [ToNumber].
  rewrite !num_le_Int.
  repeat split; try lia; subst validTo.
  all: try (apply Z.leb_gt); try (apply Z.leb_le).
  all: Z.div_mod_to_equations; lia.
Qed.

Lemma getExpiry_spec_witness :
  ∃ d : Z,
    86400000 * (2 * d - 1) <= 2 * (1583020800000 - sample_now)
      < 86400000 * (2 * d + 1)
    ∧ days (getExpiry sample_platform {| time_value := Int 1583020800000 |}
              2%positive {| w_heap := sample_heap; w_clock := sample_now |})
      = Int d.
Proof.
  destruct (getExpiry_spec sample_platform 1583020800000 sample_now 120
              sample_heap 2%positive) as (d & Hd & Hdays & _).
  - reflexivity.
  - exists d. split; [exact Hd | exact Hdays].
Defined.

(** C2, as the code has it.  [getExpiry] reads the clock of the world; its
    result is determined by the date, the clock reading and the host's
    [alertWindowDays], and by nothing else in the heap. *)
Theorem getExpiry_deterministic (P : Platform) (then_ : Date)
    (hostRef hostRef' : loc) (w w' : World) :
  w_clock w = w_clock w' →
  get (w_heap w) hostRef "alertWindowDays"
    = get (w_heap w') hostRef' "alertWindowDays" →
  getExpiry P then_ hostRef w = getExpiry P then_ hostRef' w'.
Proof.
  intros Hclock Hawd. unfold getExpiry. by rewrite Hclock, Hawd.
Qed.

Lemma getExpiry_deterministic_witness :
  getExpiry sample_platform {| time_value := Int 1583020800000 |} 1%positive
            {| w_heap := sample_heap; w_clock := sample_now |}
  = getExpiry sample_platform {| time_value := Int 1583020800000 |} 1%positive
              {| w_heap := <[ 2%positive := google ]> sample_heap;
                 w_clock := sample_now |}.
Proof.
  apply getExpiry_deterministic; reflexivity.
Defined.

(** C2, as stated, fails: the same date and the same host give different
    results at two clock readings. *)
Lemma getExpiry_depends_on_clock :
  let then_ := {| time_value := Int 1583020800000 |} in
  let w1 := {| w_heap := sample_heap; w_clock := sample_now |} in
  let w2 := {| w_heap := sample_heap; w_clock := sample_now + 86400000 |} in
  get (w_heap w1) 1%positive "alertWindowDays"
    = get (w_heap w2) 1%positive "alertWindowDays"
  ∧ days (getExpiry sample_platform then_ 1%positive w1) = Int 60
  ∧ days (getExpiry sample_platform then_ 1%positive w2) = Int 59
  ∧ getExpiry sample_platform then_ 1%positive w1
    ≠ getExpiry sample_platform then_ 1%positive w2.
Proof.
  repeat split; try reflexivity. intros H.
  apply (f_equal days) in H. vm_compute in H. discriminate H.
Qed.

(** C7.  With a non-negative numeric [alertWindowDays], an expired
    certificate is in the alert window. *)
Theorem isExpired_isInAlertWindow (P : Platform) (then_ : Date)
    (hostRef : loc) (w : World) (q : Q) :
  get (w_heap w) hostRef "alertWindowDays" = VNum (Num q) →
  (0 <= q)%Q →
  isExpired (getExpiry P then_ hostRef w) = true →
  isInAlertWindow (getExpiry P then_ hostRef w) = true.
Proof.
  intros Hawd Hq. unfold getExpiry.
  cbn [isExpired isInAlertWindow]. rewrite Hawd. cbn [ToNumber].
  destruct (Math_round _) as [|x]; [done|].
  unfold num_le, Int. rewrite !Qle_bool_iff. intros Hx.
  eapply Qle_trans; [exact Hx|exact Hq].
Qed.

Lemma isExpired_isInAlertWindow_witness :
  isInAlertWindow
    (getExpiry sample_platform {| time_value := Int 1577404800000 |}
               2%positive {| w_heap := sample_heap; w_clock := sample_now |})
  = true.
Proof.
  apply (isExpired_isInAlertWindow _ _ _ _ (inject_Z 120));
    [reflexivity | discriminate | reflexivity].
Defined.

(** ** The heap *)

Lemma get_set (h : heap) (l l' : loc) (k k' : string) (v : value) :
  get (set h l k v) l' k'
  = if decide (l = l' ∧ k = k') then v else get h l' k'.
Proof.
  unfold get, set, prop. destruct (decide (l = l')) as [->|Hl].
  - rewrite lookup_insert_eq. simpl. destruct (decide (k = k')) as [->|Hk].
    + rewrite lookup_insert_eq. by rewrite decide_True.
    + rewrite lookup_insert_ne by done. rewrite decide_False; [done|by intros [? ?]].
  - rewrite lookup_insert_ne by done. rewrite decide_False; [done|by intros [? ?]].
Qed.

Lemma dom_set (h : heap) (l : loc) (k : string) (v : value) :
  dom (set h l k v) = {[l]} ∪ dom h.
Proof. unfold set. by rewrite dom_insert_L. Qed.

Lemma alloc_fresh (h : heap) : (alloc h).1 ∉ dom h.
Proof. simpl. apply is_fresh. Qed.

Lemma dom_alloc (h : heap) : dom (alloc h).2 = {[(alloc h).1]} ∪ dom h.
Proof. simpl. by rewrite dom_insert_L. Qed.

Lemma get_alloc (h : heap) (l : loc) (k : string) :
  get (alloc h).2 l k = get h l k.
Proof.
  unfold get, alloc; simpl. destruct (decide (fresh (dom h) = l)) as [<-|Hl].
  - rewrite lookup_insert_eq.
    pose proof (is_fresh (dom h)) as Hf. apply not_elem_of_dom in Hf.
    by rewrite Hf.
  - by rewrite lookup_insert_ne.
Qed.

(** ** Configuration of one host *)

Lemma js_or_idem (v d : value) : js_or (js_or v d) d = js_or v d.
Proof. unfold js_or. destruct (truthy v) eqn:Hv; [by rewrite Hv|]. by destruct (truthy d). Qed.

Lemma buildHost_fst (cfg : Config) (l : loc) (h : heap) :
  (buildHost cfg l h).1 = l.
Proof. reflexivity. Qed.

(** What [buildHost] leaves in the heap, read through [get]: three
    properties of the host are assigned, a new [headers] object holds the
    user agent, everything else is as before. *)
Lemma buildHost_get (cfg : Config) (l : loc) (h : heap) :
  l ∈ dom h →
  ∃ hd : loc,
    (hd ∉ dom h)
    ∧ dom ((buildHost cfg l h).2) = {[hd]} ∪ dom h
    ∧ ∀ l' k',
        get (buildHost cfg l h).2 l' k'
        = if decide (l' = l) then
            if decide (k' = "port") then
              js_or (get h l "port") (VNum (defaultPort cfg))
            else if decide (k' = "alertWindowDays") then
              js_or (get h l "alertWindowDays")
                    (VNum (defaultAlertWindowDays cfg))
            else if decide (k' = "headers") then VRef hd
            else get h l k'
          else if decide (l' = hd ∧ k' = "User-Agent") then
            js_or (get h l "userAgent") (VStr (userAgent cfg))
          else get h l' k'.
Proof.
  intros Hl. unfold buildHost.
  set (h1 := set h l "port" _). set (h2 := set h1 l "alertWindowDays" _).
  assert (Hdom2 : dom h2 = dom h).
  { subst h2 h1. rewrite !dom_set. set_solver. }
  pose proof (alloc_fresh h2) as Hfresh. pose proof (dom_alloc h2) as Hdom3.
  pose proof (get_alloc h2) as Hget3.
  destruct (alloc h2) as [hd h3]. simpl in Hfresh, Hdom3, Hget3.
  rewrite Hdom2 in Hfresh, Hdom3.
  assert (Hne : hd ≠ l) by (intros ->; done).
  rewrite get_set, decide_True by done. simpl.
  exists hd. split; [done|]. split.
  { rewrite !dom_set, Hdom3. set_solver. }
  intros l' k'. rewrite !get_set, !Hget3. subst h2 h1. rewrite !get_set.
  decide_cases.
Qed.

(** ** Configuration of a list of hosts *)

Lemma buildHostConfig_cons (cfg : Config) (a : loc) (rest : list loc)
    (h : heap) :
  buildHostConfig cfg (a :: rest) h
  = ((buildHost cfg a h).1
       :: (buildHostConfig cfg rest (buildHost cfg a h).2).1,
     (buildHostConfig cfg rest (buildHost cfg a h).2).2).
Proof.
  cbn [buildHostConfig]. destruct (buildHost cfg a h) as [r h1].
  cbn [fst snd]. by destruct (buildHostConfig cfg rest h1).
Qed.

Lemma buildHostConfig_spec (cfg : Config) (hosts : list loc) :
  ∀ h : heap,
    (∀ l, l ∈ hosts → l ∈ dom h) →
    (buildHostConfig cfg hosts h).1 = hosts
    ∧ dom h ⊆ dom ((buildHostConfig cfg hosts h).2)
    ∧ (∀ l, l ∈ hosts → resolved cfg h (buildHostConfig cfg hosts h).2 l)
    ∧ (∀ l k, l ∈ dom h → l ∉ hosts ∨ untouched k →
         get (buildHostConfig cfg hosts h).2 l k = get h l k).
Proof.
  induction hosts as [|a rest IH]; intros h Hin.
  { simpl. split; [done|]. split; [done|]. split; [|done].
    intros l Hl. by apply elem_of_nil in Hl. }
  destruct (buildHost_get cfg a h) as (hd & Hhd & Hdom1 & Hget1).
  { apply Hin. left. }
  rewrite buildHostConfig_cons, buildHost_fst. cbn [fst snd].
  set (h1 := (buildHost cfg a h).2) in *.
  assert (Hrest : ∀ l, l ∈ rest → l ∈ dom h) by (intros l Hl; apply Hin; by right).
  destruct (IH h1) as (IH1 & IH2 & IH3 & IH4).
  { intros l Hl. rewrite Hdom1. apply elem_of_union_r. by apply Hrest. }
  destruct (buildHostConfig cfg rest h1) as [rs h2]. cbn [fst snd] in *.
  subst rs.
  assert (Hframe : ∀ l k, l ∈ dom h → l ≠ a ∨ untouched k →
                     get h1 l k = get h l k).
  { intros l k Hl Hor. rewrite Hget1. unfold untouched in Hor. decide_cases. }
  split; [done|]. split; [set_solver|]. split.
  - intros l Hl. destruct (decide (l ∈ rest)) as [Hlr|Hlr].
    + destruct (IH3 l Hlr) as (Hp & Ha & (hd' & Hhd1 & Hhd2 & Hh & Hua) & Hk).
      assert (Hldom := Hrest l Hlr).
      repeat split.
      * rewrite Hp, Hget1. decide_cases. apply js_or_idem.
      * rewrite Ha, Hget1. decide_cases. apply js_or_idem.
      * exists hd'. repeat split; [set_solver|done|done|].
        rewrite Hua. f_equal. apply Hframe; [done|]. right. by repeat split.
      * intros k Hk'. rewrite Hk by done. apply Hframe; [done|by right].
    + assert (l = a) as -> by (apply elem_of_cons in Hl as [?|?]; done).
      assert (Hadom : a ∈ dom h1) by (rewrite Hdom1; apply elem_of_union_r, Hin; left).
      assert (Hhd1 : hd ∈ dom h1) by (rewrite Hdom1; set_solver).
      assert (Hhdr : hd ∉ rest) by (intros ?; apply Hhd; by apply Hrest).
      assert (Hne : hd ≠ a) by (intros ->; apply Hhd, Hin; left).
      repeat split.
      * rewrite IH4, Hget1 by auto. decide_cases.
      * rewrite IH4, Hget1 by auto. decide_cases.
      * exists hd. repeat split; [done|set_solver| |].
        -- rewrite IH4, Hget1 by auto. decide_cases.
        -- rewrite IH4, Hget1 by auto. decide_cases.
      * intros k Hk. rewrite IH4 by auto. apply Hframe; [apply Hin; left|by right].
  - intros l k Hl Hor. rewrite IH4.
    + apply Hframe; [done|]. destruct Hor as [Hn|?]; [left|by right].
      intros ->. apply Hn. left.
    + rewrite Hdom1. by apply elem_of_union_r.
    + destruct Hor as [Hn|?]; [left|by right]. intros ?. apply Hn. by right.
Qed.

(** ** Sending the requests *)

Lemma buildHostConfig_fst (cfg : Config) (hosts : list loc) :
  ∀ h : heap, (buildHostConfig cfg hosts h).1 = hosts.
Proof.
  induction hosts as [|a rest IH]; intros h; [done|].
  rewrite buildHostConfig_cons, buildHost_fst. cbn [fst]. by rewrite IH.
Qed.

(** One call of [checkHost]: [method] is assigned, one promise is created,
    pending or rejected, and the request is made in the first case only. *)
Lemma checkHost_once (P : Platform) (cfg : Config) (a : loc) (h : heap)
    (reqs : list Request) (ps : list (pstate CheckResult)) :
  ∃ p : pstate CheckResult,
    (p = Pending ∨ ∃ e, p = Rejected e)
    ∧ checkHost P cfg a (h, reqs, ps)
      = (set h a "method" (VStr "GET"),
         reqs ++ ((λ l, {| req_options := l; req_timeout := timeout cfg |})
                    <$> requested [a] [p]),
         ps ++ [p]).
Proof.
  unfold checkHost.
  destruct (https_request_throws P _ a) as [e|].
  { exists (Rejected e). split; [right; by eexists|]. simpl.
    by rewrite app_nil_r. }
  destruct (setTimeout_throws P (timeout cfg)) as [e|].
  { exists (Rejected e). split; [right; by eexists|]. simpl.
    by rewrite app_nil_r. }
  exists Pending. split; [by left|done].
Qed.

Lemma checkHost_fold (P : Platform) (cfg : Config) (hosts : list loc) :
  ∀ (h : heap) (reqs : list Request) (ps : list (pstate CheckResult)),
    let st := foldl (λ st hostRef, checkHost P cfg hostRef st)
                    (h, reqs, ps) hosts in
    (∀ l k, get st.1.1 l k
            = if decide (l ∈ hosts ∧ k = "method") then VStr "GET"
              else get h l k)
    ∧ ∃ ps' : list (pstate CheckResult),
        st.2 = ps ++ ps'
        ∧ length ps' = length hosts
        ∧ (∀ i x, ps' !! i ≠ Some (Fulfilled x))
        ∧ st.1.2
          = reqs ++ ((λ l, {| req_options := l; req_timeout := timeout cfg |})
                       <$> requested hosts ps').
Proof.
  induction hosts as [|a rest IH]; intros h reqs ps; cbn [foldl].
  { cbn [fst snd]. split.
    - intros l k. rewrite decide_False; [done|].
      intros [Hl _]. by apply elem_of_nil in Hl.
    - exists []. by rewrite !app_nil_r. }
  destruct (checkHost_once P cfg a h reqs ps) as (p & Hp & ->).
  destruct (IH (set h a "method" (VStr "GET"))
               (reqs ++ ((λ l, {| req_options := l;
                                  req_timeout := timeout cfg |})
                           <$> requested [a] [p]))
               (ps ++ [p]))
    as (IH1 & ps' & IH2 & IH3 & IH4 & IH5).
  split.
  - intros l k. rewrite IH1, get_set.
    destruct (decide (l ∈ rest ∧ k = "method")) as [[? ->]|Hn].
    + rewrite decide_True; [done|]. split; [by right|done].
    + destruct (decide (a = l ∧ "method" = k)) as [[-> <-]|Hn'].
      * rewrite decide_True; [done|]. split; [left|done].
      * rewrite decide_False; [done|]. intros [Hl ->].
        apply elem_of_cons in Hl as [->|?]; [by apply Hn'|by apply Hn].
  - exists (p :: ps'). split; [by rewrite IH2, <- app_assoc|].
    split; [simpl; by rewrite IH3|]. split.
    + intros [|i] x; simpl; [|by apply IH4].
      destruct Hp as [->|[e ->]]; done.
    + rewrite IH5, <- app_assoc. f_equal.
      destruct Hp as [->|[e ->]]; simpl; by rewrite ?fmap_cons.
Qed.

(** The state in which [checkHosts] awaits the events, heap apart. *)
Lemma checkHosts_start_shape (P : Platform) (cfg : Config) (hosts : list loc)
    (h : heap) :
  let run := checkHosts_start P cfg hosts h in
  r_hosts run = hosts
  ∧ length (r_promises run) = length hosts
  ∧ (∀ i x, r_promises run !! i ≠ Some (Fulfilled x))
  ∧ r_values run = replicate (length hosts) None
  ∧ r_remaining run = length hosts
  ∧ r_all run = all_start (r_promises run)
  ∧ r_requests run
    = ((λ l, {| req_options := l; req_timeout := timeout cfg |})
         <$> requested hosts (r_promises run))
  ∧ r_uncaught run = [].
Proof.
  unfold checkHosts_start.
  pose proof (buildHostConfig_fst cfg hosts h) as Hfst.
  destruct (buildHostConfig cfg hosts h) as [resolved_ h1].
  cbn [fst] in Hfst. subst resolved_.
  destruct (checkHost_fold P cfg hosts h1 [] [])
    as (_ & ps' & Hps & Hlen & Hnf & Hreqs).
  destruct (foldl _ _ _) as [[h2 reqs] ps]. cbn [fst snd] in *.
  subst ps. by repeat split.
Qed.

(** The heap in that state. *)
Lemma checkHosts_start_heap (P : Platform) (cfg : Config) (hosts : list loc)
    (h : heap) (l : loc) (k : string) :
  get (r_heap (checkHosts_start P cfg hosts h)) l k
  = if decide (l ∈ hosts ∧ k = "method") then VStr "GET"
    else get (buildHostConfig cfg hosts h).2 l k.
Proof.
  unfold checkHosts_start.
  pose proof (buildHostConfig_fst cfg hosts h) as Hfst.
  destruct (buildHostConfig cfg hosts h) as [resolved_ h1].
  cbn [fst snd] in *. subst resolved_.
  destruct (checkHost_fold P cfg hosts h1 [] []) as (Hget & _).
  destruct (foldl _ _ _) as [[h2 reqs] ps]. cbn [fst snd] in *.
  apply Hget.
Qed.

(** ** The promises *)

Lemma resolve_frame (i : nat) (x : CheckResult) (run : Run) :
  r_heap (resolve i x run) = r_heap run
  ∧ r_hosts (resolve i x run) = r_hosts run
  ∧ r_requests (resolve i x run) = r_requests run.
Proof. unfold resolve. by destruct (r_promises run !! i) as [[| |]|]. Qed.

Lemma reject_frame (i : nat) (e : value) (run : Run) :
  r_heap (reject i e run) = r_heap run
  ∧ r_hosts (reject i e run) = r_hosts run
  ∧ r_requests (reject i e run) = r_requests run.
Proof. unfold reject. by destruct (r_promises run !! i) as [[| |]|]. Qed.

Lemma step_frame (P : Platform) (run : Run) (ev : Event) :
  r_heap (step P run ev) = r_heap run
  ∧ r_hosts (step P run ev) = r_hosts run
  ∧ r_requests (step P run ev) = r_requests run.
Proof.
  destruct ev as [i raw t|i e t]; simpl; [|apply reject_frame].
  destruct (r_hosts run !! i); [|done].
  destruct (hydrateResultObject _ _ _ _); [apply resolve_frame|done].
Qed.

Lemma run_frame (P : Platform) (events : list Event) :
  ∀ run : Run,
    r_heap (foldl (step P) run events) = r_heap run
    ∧ r_hosts (foldl (step P) run events) = r_hosts run
    ∧ r_requests (foldl (step P) run events) = r_requests run.
Proof.
  induction events as [|ev rest IH]; intros run; [done|].
  cbn [foldl]. destruct (IH (step P run ev)) as (-> & -> & ->).
  apply step_frame.
Qed.

Lemma hydrate_host (P : Platform) (raw : RawCert) (l : loc) (w : World)
    (x : CheckResult) :
  hydrateResultObject P raw l w = Ok x → host x = l.
Proof.
  unfold hydrateResultObject.
  destruct (subject raw), (issuer raw); simpl; try discriminate.
  by intros [= <-].
Qed.

Lemma awaited_fulfil (ps : list (pstate CheckResult)) (i : nat)
    (p : pstate CheckResult) (x : CheckResult) :
  ps !! i = Some p → value_of p = None →
  (0 < awaited ps)%nat
  ∧ awaited (<[i := Fulfilled x]> ps) = pred (awaited ps).
Proof.
  revert i. induction ps as [|q ps IH]; intros i Hi Hp; [done|].
  destruct i as [|i]; simpl in *.
  - simplify_eq. destruct p; simpl in *; try done; split; lia.
  - destruct (IH i Hi Hp) as [Hpos Heq]. destruct q; simpl; split; lia.
Qed.

Lemma awaited_reject (ps : list (pstate CheckResult)) (i : nat) (e : value) :
  ps !! i = Some Pending →
  awaited (<[i := Rejected e]> ps) = awaited ps.
Proof.
  revert i. induction ps as [|q ps IH]; intros i Hi; [done|].
  destruct i as [|i]; simpl in *.
  - by simplify_eq.
  - rewrite (IH i Hi). by destruct q.
Qed.

Lemma awaited_none (ps : list (pstate CheckResult)) (i : nat)
    (p : pstate CheckResult) :
  awaited ps = 0%nat → ps !! i = Some p → ∃ x, p = Fulfilled x.
Proof.
  revert i. induction ps as [|q ps IH]; intros i H0 Hi; [done|].
  destruct i as [|i]; simpl in *.
  - simplify_eq. destruct p; try done. by eexists.
  - destruct q; try done. by eapply IH.
Qed.


Lemma first_rejected_Some (ps : list (pstate CheckResult)) (e : value) :
  first_rejected ps = Some e → ∃ i, ps !! i = Some (Rejected e).
Proof.
  induction ps as [|p ps IH]; [done|]. destruct p as [|x|e']; simpl.
  - intros H. destruct (IH H) as [i Hi]. by exists (S i).
  - intros H. destruct (IH H) as [i Hi]. by exists (S i).
  - intros [= ->]. by exists 0%nat.
Qed.

Lemma first_rejected_None (ps : list (pstate CheckResult)) :
  first_rejected ps = None ↔ ∀ i e, ps !! i ≠ Some (Rejected e).
Proof.
  induction ps as [|p ps IH]; [done|]. split.
  - destruct p as [|x|e']; simpl; try done.
    + intros H [|i] e; simpl; [done|]. by apply IH.
    + intros H [|i] e; simpl; [done|]. by apply IH.
  - intros Hnone. destruct p as [|x|e']; simpl.
    + apply IH. intros i e. apply (Hnone (S i)).
    + apply IH. intros i e. apply (Hnone (S i)).
    + by destruct (Hnone 0%nat e').
Qed.

Lemma awaited_unfulfilled (ps : list (pstate CheckResult)) :
  (∀ i x, ps !! i ≠ Some (Fulfilled x)) →
  awaited ps = length ps ∧ value_of <$> ps = replicate (length ps) None.
Proof.
  induction ps as [|p ps IH]; intros Hnf; [done|].
  destruct IH as [IH1 IH2].
  { intros i x. apply (Hnf (S i)). }
  destruct p as [|x|e]; simpl.
  - by rewrite IH1, <- IH2.
  - by destruct (Hnf 0%nat x).
  - by rewrite IH1, <- IH2.
Qed.

Lemma consistent_start (P : Platform) (cfg : Config) (hosts : list loc)
    (h : heap) :
  consistent (checkHosts_start P cfg hosts h).
Proof.
  destruct (checkHosts_start_shape P cfg hosts h)
    as (Hh & Hlen & Hnf & Hv & Hr & Ha & _ & _).
  destruct (awaited_unfulfilled _ Hnf) as [Haw Hval].
  unfold consistent, none_rejected. rewrite Hh, Hv, Hr, Ha, Haw, Hval, Hlen.
  repeat split; try done.
  - intros i x Hi. by apply Hnf in Hi.
  - unfold all_start.
    destruct (r_promises (checkHosts_start P cfg hosts h)) as [|p ps] eqn:Hps.
    { simpl in Hlen. by rewrite <- Hlen. }
    destruct (first_rejected (p :: ps)) as [e|] eqn:Hfr.
    + apply first_rejected_Some in Hfr as [i Hi]. by exists i, e.
    + split; [by apply first_rejected_None|]. simpl in Hlen. lia.
Qed.

Lemma consistent_resolve (i : nat) (x : CheckResult) (run : Run) :
  r_hosts run !! i = Some (host x) →
  consistent run → consistent (resolve i x run).
Proof.
  intros Hl Hc. pose proof Hc as (Hlen & Hval & Hrem & Hhost & Hall).
  unfold resolve.
  destruct (r_promises run !! i) as [[| |]|] eqn:Hp; try done.
  destruct (awaited_fulfil _ _ _ x Hp eq_refl) as [Hpos Hpred].
  unfold consistent, none_rejected in *; simpl.
  rewrite length_insert, list_fmap_insert, <- Hval, Hpred, <- Hrem.
  repeat split; try done.
  - intros j y Hj. apply list_lookup_insert_Some in Hj
      as [(<- & [= <-] & _)|[_ Hj]]; [done|by apply Hhost].
  - destruct (r_all run) as [|vs|e0].
    + destruct Hall as [Hnone Hr].
      destruct (Nat.eqb_spec (pred (r_remaining run)) 0) as [H0|H0];
        [done|]. split; [|lia].
      intros j e' Hj. apply list_lookup_insert_Some in Hj
        as [(_ & [=] & _)|[_ Hj]]. by apply Hnone in Hj.
    + destruct Hall as [_ H0]. lia.
    + destruct Hall as (j & e' & Hj). exists j, e'.
      rewrite list_lookup_insert_ne; [done|]. intros <-. congruence.
Qed.

Lemma consistent_reject (i : nat) (e : value) (run : Run) :
  consistent run → consistent (reject i e run).
Proof.
  intros Hc. pose proof Hc as (Hlen & Hval & Hrem & Hhost & Hall).
  unfold reject.
  destruct (r_promises run !! i) as [[| |]|] eqn:Hp; try done.
  unfold consistent, none_rejected in *; simpl.
  rewrite length_insert, list_fmap_insert, (awaited_reject _ _ _ Hp).
  assert (Hid : <[i:=value_of (Rejected e)]> (value_of <$> r_promises run)
                = value_of <$> r_promises run).
  { apply list_insert_id. by rewrite list_lookup_fmap, Hp. }
  rewrite Hid. repeat split; try done.
  - intros j y Hj. apply list_lookup_insert_Some in Hj
      as [(_ & [=] & _)|[_ Hj]]. by apply Hhost.
  - destruct (r_all run) as [|vs|e0]; [|done|].
    + exists i, e. apply list_lookup_insert_eq. by eapply lookup_lt_Some.
    + destruct Hall as (j & e' & Hj). exists j, e'.
      rewrite list_lookup_insert_ne; [done|]. intros <-. congruence.
Qed.

Lemma consistent_step (P : Platform) (run : Run) (ev : Event) :
  consistent run → consistent (step P run ev).
Proof.
  intros Hc. destruct ev as [i raw t|i e t]; simpl;
    [|by apply consistent_reject].
  destruct (r_hosts run !! i) as [l|] eqn:Hl; [|done].
  destruct (hydrateResultObject _ _ _ _) as [x|e] eqn:Hhy; [|done].
  apply hydrate_host in Hhy. apply consistent_resolve; [|done].
  by rewrite Hhy.
Qed.

Lemma consistent_run (P : Platform) (events : list Event) :
  ∀ run : Run, consistent run → consistent (foldl (step P) run events).
Proof.
  induction events as [|ev rest IH]; intros run Hc; [done|].
  cbn [foldl]. by apply IH, consistent_step.
Qed.

(** What [resolve] and [reject] do to the promise at another index, to a
    settled promise, and to a settled promise of [checkHosts]: nothing. *)
Lemma resolve_lookup (i j : nat) (x : CheckResult) (run : Run)
    (p : pstate CheckResult) :
  r_promises run !! j = Some p → i ≠ j ∨ p ≠ Pending →
  r_promises (resolve i x run) !! j = Some p.
Proof.
  intros Hj Hor. unfold resolve.
  destruct (r_promises run !! i) as [[| |]|] eqn:Hi; try done. simpl.
  rewrite list_lookup_insert_ne; [done|]. intros ->.
  destruct Hor as [?|?]; [done|congruence].
Qed.

Lemma reject_lookup (i j : nat) (e : value) (run : Run)
    (p : pstate CheckResult) :
  r_promises run !! j = Some p → i ≠ j ∨ p ≠ Pending →
  r_promises (reject i e run) !! j = Some p.
Proof.
  intros Hj Hor. unfold reject.
  destruct (r_promises run !! i) as [[| |]|] eqn:Hi; try done. simpl.
  rewrite list_lookup_insert_ne; [done|]. intros ->.
  destruct Hor as [?|?]; [done|congruence].
Qed.

Lemma step_lookup (P : Platform) (run : Run) (ev : Event) (j : nat)
    (p : pstate CheckResult) :
  r_promises run !! j = Some p → event_index ev ≠ j ∨ p ≠ Pending →
  r_promises (step P run ev) !! j = Some p.
Proof.
  intros Hj Hor. destruct ev as [i raw t|i e t]; simpl in *;
    [|by apply reject_lookup].
  destruct (r_hosts run !! i); [|done].
  destruct (hydrateResultObject _ _ _ _); [by apply resolve_lookup|done].
Qed.

(** A settled promise stays as it is. *)
Lemma run_settled (P : Platform) (events : list Event) (i : nat)
    (p : pstate CheckResult) :
  ∀ run : Run,
    r_promises run !! i = Some p → p ≠ Pending →
    r_promises (foldl (step P) run events) !! i = Some p.
Proof.
  induction events as [|ev rest IH]; intros run Hi Hp; [done|].
  cbn [foldl]. apply IH; [|done]. apply step_lookup; [done|by right].
Qed.

(** The promise [checkHosts] returned, once settled, stays as it is. *)
Lemma step_all_settled (P : Platform) (run : Run) (ev : Event) :
  r_all run ≠ Pending → r_all (step P run ev) = r_all run.
Proof.
  intros Hs. destruct ev as [j raw t|j e t]; simpl.
  - destruct (r_hosts run !! j); [|done].
    destruct (hydrateResultObject _ _ _ _); [|done]. unfold resolve.
    destruct (r_promises run !! j) as [[| |]|]; try done. simpl.
    by destruct (r_all run).
  - unfold reject.
    destruct (r_promises run !! j) as [[| |]|]; try done. simpl.
    by destruct (r_all run).
Qed.

Lemma run_all_settled (P : Platform) (events : list Event) :
  ∀ run : Run,
    r_all run ≠ Pending → r_all (foldl (step P) run events) = r_all run.
Proof.
  induction events as [|ev rest IH]; intros run Hs; [done|].
  cbn [foldl]. rewrite IH; [by apply step_all_settled|].
  by rewrite step_all_settled.
Qed.

(** A pending promise is fulfilled by the first event of its request, when
    that is a response whose certificate hydrates. *)
Lemma run_first_response (P : Platform) (events : list Event) (i : nat)
    (l : loc) (raw : RawCert) (t : Z) (x : CheckResult) :
  ∀ run : Run,
    r_hosts run !! i = Some l →
    r_promises run !! i = Some Pending →
    first_event i events = Some (Response i raw t) →
    hydrateResultObject P raw l {| w_heap := r_heap run; w_clock := t |}
      = Ok x →
    r_promises (foldl (step P) run events) !! i = Some (Fulfilled x).
Proof.
  induction events as [|ev rest IH]; intros run Hl Hp Hfirst Hhy; [done|].
  cbn [foldl first_event] in *.
  destruct (Nat.eqb_spec (event_index ev) i) as [Hi|Hi].
  - injection Hfirst as ->. apply run_settled; [|done]. simpl.
    rewrite Hl, Hhy. unfold resolve. rewrite Hp. simpl.
    apply list_lookup_insert_eq. by eapply lookup_lt_Some.
  - destruct (step_frame P run ev) as (Hheap & Hhosts & _).
    apply IH; [by rewrite Hhosts| |done|by rewrite Hheap].
    apply step_lookup; [done|by left].
Qed.

(** ** The host objects after [checkHosts] *)


(** The caller's host object, at any moment after [checkHosts] returned
    its promise. *)
Lemma checkHosts_host (P : Platform) (cfg : Config) (hosts : list loc)
    (h : heap) (events : list Event) (l : loc) :
  (∀ l', l' ∈ hosts → l' ∈ dom h) → l ∈ hosts →
  let run := checkHosts P cfg hosts h events in
  get (r_heap run) l "port"
  = js_or (get h l "port") (VNum (defaultPort cfg))
  ∧ get (r_heap run) l "alertWindowDays"
    = js_or (get h l "alertWindowDays") (VNum (defaultAlertWindowDays cfg))
  ∧ (∃ hd : loc,
       (hd ∉ dom h)
       ∧ get (r_heap run) l "headers" = VRef hd
       ∧ get (r_heap run) hd "User-Agent"
         = js_or (get h l "userAgent") (VStr (userAgent cfg)))
  ∧ get (r_heap run) l "method" = VStr "GET"
  ∧ (∀ k, untouched k → k ≠ "method" → get (r_heap run) l k = get h l k).
Proof.
  intros Hin Hl run. subst run. unfold checkHosts.
  destruct (run_frame P events (checkHosts_start P cfg hosts h)) as (-> & _).
  pose proof (checkHosts_start_heap P cfg hosts h) as Hget.
  destruct (buildHostConfig_spec cfg hosts h Hin) as (_ & _ & Hres & _).
  destruct (Hres l Hl) as (Hp & Ha & (hd & Hhd & _ & Hh & Hua) & Hk).
  rewrite !Hget. repeat split.
  - by rewrite decide_False by (by intros [_ ?]).
  - by rewrite decide_False by (by intros [_ ?]).
  - exists hd. rewrite !Hget. repeat split; [done| |].
    + by rewrite decide_False by (by intros [_ ?]).
    + by rewrite decide_False by (by intros [_ ?]).
  - by rewrite decide_True.
  - intros k Hu Hm. rewrite Hget, decide_False by (by intros [_ ?]).
    by apply Hk.
Qed.

(** ** Parsing the certificate *)

(** C3, as the code has it.  Parsing has no error of its own for dates: on
    a raw certificate with a [subject] and an [issuer] object
    [hydrateResultObject] returns a result whatever the date strings are.
    A [valid_to] that [Date.parse] cannot read gives an invalid date, and
    an expiry with [NaN] days and milliseconds that is neither expired nor
    in the alert window.  Absent [O], [CN] or [subjectaltname] properties do
    not make it fail. *)
Theorem hydrateResultObject_total (P : Platform) (raw : RawCert) (l : loc)
    (w : World) (s i : RawName) :
  subject raw = Some s → issuer raw = Some i →
  ∃ x : CheckResult,
    hydrateResultObject P raw l w = Ok x
    ∧ validFrom x = parseDate P (valid_from raw)
    ∧ validTo x = parseDate P (valid_to raw)
    ∧ (Date_parse P (valid_to raw) = NaN →
       time_value (validTo x) = NaN
       ∧ days (expiry x) = NaN
       ∧ milliseconds (expiry x) = NaN
       ∧ isExpired (expiry x) = false
       ∧ isInAlertWindow (expiry x) = false).
Proof.
  intros Hs Hi. unfold hydrateResultObject. rewrite Hs, Hi. simpl.
  eexists. split; [reflexivity|]. simpl. split; [done|]. split; [done|].
  intros Hnan. unfold parseDate, getExpiry; simpl. rewrite Hnan.
  by repeat split.
Qed.

Lemma hydrateResultObject_total_witness :
  ∃ x : CheckResult,
    hydrateResultObject sample_platform undated_cert 1%positive
      {| w_heap := sample_heap; w_clock := sample_now |} = Ok x
    ∧ days (expiry x) = NaN.
Proof.
  destruct (hydrateResultObject_total sample_platform undated_cert 1%positive
              {| w_heap := sample_heap; w_clock := sample_now |}
              {| O := VStr "Org name"; CN := VStr "Common name" |}
              {| O := VUndefined; CN := VStr "Issuer common name" |})
    as (x & Hx & _ & _ & Hnan); [reflexivity|reflexivity|].
  exists x. split; [exact Hx|]. by apply Hnan.
Defined.

(** C3, as stated, fails: a certificate whose [valid_to] cannot be parsed
    is hydrated into a result, not into an error. *)
Lemma hydrateResultObject_undated :
  Date_parse sample_platform (valid_to undated_cert) = NaN
  ∧ ∃ x : CheckResult,
      hydrateResultObject sample_platform undated_cert 1%positive
        {| w_heap := sample_heap; w_clock := sample_now |} = Ok x
      ∧ validTo x = {| time_value := NaN |}
      ∧ isExpired (expiry x) = false.
Proof.
  split; [reflexivity|]. eexists. split; [reflexivity|]. by split.
Qed.

(** C9, as the code has it.  On a raw certificate with a [subject] and an
    [issuer] object the details are exactly the properties of the raw
    certificate, an absent property being read as [undefined]. *)
Theorem hydrateResultObject_details (P : Platform) (raw : RawCert) (l : loc)
    (w : World) (s i : RawName) :
  subject raw = Some s → issuer raw = Some i →
  ∃ x : CheckResult,
    hydrateResultObject P raw l w = Ok x
    ∧ s_org (d_subject (details x)) = O s
    ∧ s_commonName (d_subject (details x)) = CN s
    ∧ s_altName (d_subject (details x)) = subjectaltname raw
    ∧ i_org (d_issuer (details x)) = O i
    ∧ i_commonName (d_issuer (details x)) = CN i.
Proof.
  intros Hs Hi. unfold hydrateResultObject. rewrite Hs, Hi. simpl.
  eexists. split; [reflexivity|]. by repeat split.
Qed.

Lemma hydrateResultObject_details_witness :
  ∃ x : CheckResult,
    hydrateResultObject sample_platform sample_cert 2%positive
      {| w_heap := sample_heap; w_clock := sample_now |} = Ok x
    ∧ s_org (d_subject (details x)) = VStr "Org name"
    ∧ i_org (d_issuer (details x)) = VUndefined.
Proof.
  destruct (hydrateResultObject_details sample_platform sample_cert 2%positive
              {| w_heap := sample_heap; w_clock := sample_now |}
              {| O := VStr "Org name"; CN := VStr "Common name" |}
              {| O := VUndefined; CN := VStr "Issuer common name" |})
    as (x & Hx & Hso & _ & _ & Hio & _); [reflexivity|reflexivity|].
  exists x. by repeat split.
Defined.

(** C9, as stated, fails: on the empty certificate object, where every one
    of the fields is absent, reading [raw.subject.O] throws. *)
Lemma hydrateResultObject_empty_cert :
  subject empty_cert = None
  ∧ hydrateResultObject sample_platform empty_cert 1%positive
      {| w_heap := sample_heap; w_clock := sample_now |}
    = Throw (TypeError "Cannot read properties of undefined: subject").
Proof. split; reflexivity. Qed.

(** ** Resolving the configuration *)

(** C4.  After [buildHostConfig] the array is the one given, and each host
    has its own [port] when that is truthy and the default port otherwise;
    the same holds for [alertWindowDays] and for the [User-Agent] header.
    An explicit [port] of [0] is replaced by the default. *)
Theorem buildHostConfig_overrides (cfg : Config) (hosts : list loc)
    (h : heap) (l : loc) :
  (∀ l', l' ∈ hosts → l' ∈ dom h) → l ∈ hosts →
  let h' := (buildHostConfig cfg hosts h).2 in
  (buildHostConfig cfg hosts h).1 = hosts
  ∧ get h' l "port"
    = (if truthy (get h l "port") then get h l "port"
       else VNum (defaultPort cfg))
  ∧ get h' l "alertWindowDays"
    = (if truthy (get h l "alertWindowDays") then get h l "alertWindowDays"
       else VNum (defaultAlertWindowDays cfg))
  ∧ (∃ hd : loc,
       get h' l "headers" = VRef hd
       ∧ get h' hd "User-Agent"
         = (if truthy (get h l "userAgent") then get h l "userAgent"
            else VStr (userAgent cfg)))
  ∧ (get h l "port" = VNum (Int 0) → get h' l "port" = VNum (defaultPort cfg)).
Proof.
  intros Hin Hl h'. subst h'.
  destruct (buildHostConfig_spec cfg hosts h Hin) as (Hfst & _ & Hres & _).
  destruct (Hres l Hl) as (Hp & Ha & (hd & _ & _ & Hh & Hua) & _).
  split; [done|]. split; [done|]. split; [done|]. split; [by exists hd|].
  intros H0. rewrite Hp, H0. reflexivity.
Qed.

Lemma buildHostConfig_overrides_witness :
  get (buildHostConfig default_config [1%positive; 2%positive] sample_heap).2
      2%positive "port" = VNum (Int 443)
  ∧ get (buildHostConfig default_config [1%positive; 2%positive] sample_heap).2
        2%positive "alertWindowDays" = VNum (Int 120).
Proof.
  destruct (buildHostConfig_overrides default_config
              [1%positive; 2%positive] sample_heap 2%positive)
    as (_ & _ & Ha & _ & H0).
  - sample_hosts.
  - right. left.
  - split; [by apply H0|exact Ha].
Defined.



(** ** The call as a whole *)

Lemma awaited_all_fulfilled (ps : list (pstate CheckResult)) :
  (∀ i p, ps !! i = Some p → ∃ x, p = Fulfilled x) → awaited ps = 0%nat.
Proof.
  induction ps as [|q ps IH]; intros Hall; [done|].
  destruct (Hall 0%nat q eq_refl) as [x ->]. simpl.
  apply IH. intros i p Hi. by apply (Hall (S i)).
Qed.

(** When no executor has thrown, every promise is pending as [checkHosts]
    starts to await the events. *)
Lemma start_pending (P : Platform) (cfg : Config) (hosts : list loc)
    (h : heap) (i : nat) (l : loc) :
  none_rejected (checkHosts_start P cfg hosts h) →
  hosts !! i = Some l →
  r_promises (checkHosts_start P cfg hosts h) !! i = Some Pending.
Proof.
  intros Hnone Hl.
  destruct (checkHosts_start_shape P cfg hosts h) as (_ & Hlen & Hnf & _).
  destruct (lookup_lt_is_Some_2 (r_promises (checkHosts_start P cfg hosts h)) i)
    as [p Hp].
  { rewrite Hlen. by eapply lookup_lt_Some. }
  destruct p as [|x|e]; [done|by apply Hnf in Hp|by apply Hnone in Hp].
Qed.

(** C5.  When every host's request is made (no executor throws) and the
    first event of every host's request is a response whose certificate
    hydrates, in whatever order the events come, the promise of
    [checkHosts] is fulfilled with an array as long as the input in which
    position [i] holds the result of the host at position [i]. *)
Theorem checkHosts_order (P : Platform) (cfg : Config) (hosts : list loc)
    (h : heap) (events : list Event) :
  (∀ l, l ∈ hosts → l ∈ dom h) →
  none_rejected (checkHosts_start P cfg hosts h) →
  (∀ i l, hosts !! i = Some l →
     ∃ raw t x,
       first_event i events = Some (Response i raw t)
       ∧ hydrateResultObject P raw l
           {| w_heap := r_heap (checkHosts_start P cfg hosts h); w_clock := t |}
         = Ok x) →
  ∃ vs : slots,
    r_all (checkHosts P cfg hosts h events) = Fulfilled vs
    ∧ length vs = length hosts
    ∧ ∀ i l, hosts !! i = Some l →
        ∃ raw t x,
          first_event i events = Some (Response i raw t)
          ∧ hydrateResultObject P raw l
              {| w_heap := r_heap (checkHosts_start P cfg hosts h);
                 w_clock := t |} = Ok x
          ∧ vs !! i = Some (Some x)
          ∧ host x = l.
Proof.
  intros Hin Hmade Hok.
  pose proof (consistent_run P events _ (consistent_start P cfg hosts h))
    as (Hlen & Hval & Hrem & _ & Hall).
  destruct (run_frame P events (checkHosts_start P cfg hosts h))
    as (_ & Hhosts & _).
  destruct (checkHosts_start_shape P cfg hosts h) as (Hh0 & _).
  fold (checkHosts P cfg hosts h events) in Hlen, Hval, Hrem, Hall, Hhosts.
  rewrite Hhosts, Hh0 in Hlen.
  assert (Hful : ∀ i l, hosts !! i = Some l →
            ∃ raw t x,
              first_event i events = Some (Response i raw t)
              ∧ hydrateResultObject P raw l
                  {| w_heap := r_heap (checkHosts_start P cfg hosts h);
                     w_clock := t |} = Ok x
              ∧ r_promises (checkHosts P cfg hosts h events) !! i
                = Some (Fulfilled x)).
  { intros i l Hl. destruct (Hok i l Hl) as (raw & t & x & Hfirst & Hhy).
    exists raw, t, x. split; [done|]. split; [done|].
    eapply run_first_response; [by rewrite Hh0| |done|done].
    by eapply start_pending. }
  assert (H0 : awaited (r_promises (checkHosts P cfg hosts h events)) = 0%nat).
  { apply awaited_all_fulfilled. intros i p Hi.
    destruct (lookup_lt_is_Some_2 hosts i) as [l Hl].
    { rewrite <- Hlen. by eapply lookup_lt_Some. }
    destruct (Hful i l Hl) as (_ & _ & x & _ & _ & Hx).
    exists x. congruence. }
  destruct (r_all _) as [|vs|e'].
  - destruct Hall as [_ Hpos]. lia.
  - destruct Hall as [-> _]. exists (r_values (checkHosts P cfg hosts h events)).
    split; [done|]. rewrite Hval, length_fmap. split; [done|].
    intros i l Hl. destruct (Hful i l Hl) as (raw & t & x & Hfirst & Hhy & Hx).
    exists raw, t, x. repeat split; try done.
    + by rewrite list_lookup_fmap, Hx.
    + by eapply hydrate_host.
  - destruct Hall as (j & e & Hj).
    pose proof (awaited_none _ _ _ H0 Hj) as [x Hx]. done.
Qed.

Lemma checkHosts_order_witness :
  ∃ vs x1 x2,
    r_all (checkHosts sample_platform default_config [1%positive; 2%positive]
             sample_heap
             [Response 1 expired_cert (sample_now + 5);
              Response 0 sample_cert sample_now])
    = Fulfilled vs
    ∧ vs = [Some x1; Some x2]
    ∧ host x1 = 1%positive ∧ host x2 = 2%positive.
Proof.
  destruct (checkHosts_order sample_platform default_config
              [1%positive; 2%positive] sample_heap
              [Response 1 expired_cert (sample_now + 5);
               Response 0 sample_cert sample_now])
    as (vs & Hall & Hlen & Hvs).
  - sample_hosts.
  - sample_made.
  - intros [|[|i]] l Hl; [| |done]; injection Hl as <-;
      do 3 eexists; split; reflexivity.
  - destruct (Hvs 0%nat 1%positive eq_refl) as (_ & _ & x1 & _ & _ & H1 & Hh1).
    destruct (Hvs 1%nat 2%positive eq_refl) as (_ & _ & x2 & _ & _ & H2 & Hh2).
    exists vs, x1, x2. split; [exact Hall|]. split; [|by split].
    destruct vs as [|v1 [|v2 [|v3 vs]]]; try discriminate Hlen.
    simpl in H1, H2. congruence.
Defined.

(** C6, as the code has it.  A per-host promise that is rejected rejects
    the promise of [checkHosts], which is then never fulfilled with a list
    of results, whatever the other hosts answer.  The error is the first
    one observed: the exception of the first host, in the order of the
    list, whose request could not be made (its executor threw); when every
    request was made, the error of the first ['error'] event that reaches a
    pending per-host promise. *)
Theorem checkHosts_rejects (P : Platform) (cfg : Config) (hosts : list loc)
    (h : heap) :
  (∀ events i e,
     r_promises (checkHosts P cfg hosts h events) !! i = Some (Rejected e) →
     ∃ e', r_all (checkHosts P cfg hosts h events) = Rejected e'
           ∧ ∀ vs, r_all (checkHosts P cfg hosts h events) ≠ Fulfilled vs)
  ∧ (∀ events e,
       first_rejected (r_promises (checkHosts_start P cfg hosts h)) = Some e →
       r_all (checkHosts P cfg hosts h events) = Rejected e)
  ∧ (∀ pre post i e t,
       none_rejected (checkHosts P cfg hosts h pre) →
       r_promises (checkHosts P cfg hosts h pre) !! i = Some Pending →
       r_all (checkHosts P cfg hosts h (pre ++ ErrorEvent i e t :: post))
       = Rejected e
       ∧ ∀ vs,
           r_all (checkHosts P cfg hosts h (pre ++ ErrorEvent i e t :: post))
           ≠ Fulfilled vs).
Proof.
  split; [|split].
  - intros events i e Hi.
    pose proof (consistent_run P events _ (consistent_start P cfg hosts h))
      as (_ & _ & Hrem & _ & Hall).
    fold (checkHosts P cfg hosts h events) in Hrem, Hall.
    destruct (r_all _) as [|vs|e'].
    + destruct Hall as [Hnone _]. by apply Hnone in Hi.
    + destruct Hall as [_ H0]. rewrite Hrem in H0.
      by destruct (awaited_none _ _ _ H0 Hi).
    + by exists e'.
  - intros events e Hfirst. unfold checkHosts.
    destruct (checkHosts_start_shape P cfg hosts h)
      as (_ & _ & _ & _ & _ & Ha & _).
    assert (Hstart : r_all (checkHosts_start P cfg hosts h) = Rejected e).
    { rewrite Ha. unfold all_start.
      destruct (r_promises (checkHosts_start P cfg hosts h)); [done|].
      by rewrite Hfirst. }
    rewrite run_all_settled; [done|by rewrite Hstart].
  - intros pre post i e t Hnone Hi.
    assert (Hrej : r_all (checkHosts P cfg hosts h
                            (pre ++ ErrorEvent i e t :: post)) = Rejected e).
    { pose proof (consistent_run P pre _ (consistent_start P cfg hosts h))
        as (_ & _ & Hrem & _ & Hall).
      unfold checkHosts in *. rewrite foldl_app. cbn [foldl].
      set (run := foldl (step P) (checkHosts_start P cfg hosts h) pre) in *.
      assert (Hpending : r_all run = Pending).
      { destruct (r_all run) as [|vs|e']; [done| |].
        - destruct Hall as [_ H0]. rewrite Hrem in H0.
          by destruct (awaited_none _ _ _ H0 Hi).
        - destruct Hall as (j & e'' & Hj). by apply Hnone in Hj. }
      rewrite run_all_settled; simpl; unfold reject; rewrite Hi; simpl;
        by rewrite Hpending. }
    split; [done|]. intros vs. by rewrite Hrej.
Qed.

Lemma checkHosts_rejects_witness :
  r_all (checkHosts sample_platform default_config [1%positive; 2%positive]
           sample_heap
           ([Response 1 sample_cert sample_now]
              ++ ErrorEvent 0 (VStr "it failed yo") (sample_now + 5) :: []))
  = Rejected (VStr "it failed yo")
  ∧ r_all (checkHosts sample_platform default_config
             [1%positive; 3%positive; 2%positive] sample_heap3
             [ErrorEvent 0 (VStr "it failed yo") sample_now])
    = Rejected (VStr "ERR_SOCKET_BAD_PORT").
Proof.
  split.
  - destruct (checkHosts_rejects sample_platform default_config
                [1%positive; 2%positive] sample_heap) as (_ & _ & Hfirst).
    apply (Hfirst [Response 1 sample_cert sample_now] []).
    + sample_made.
    + reflexivity.
  - destruct (checkHosts_rejects sample_platform default_config
                [1%positive; 3%positive; 2%positive] sample_heap3)
      as (_ & Hthrown & _).
    apply Hthrown. reflexivity.
Defined.

(** C6, as stated, fails.  A host whose certificate has a [valid_to] that
    cannot be parsed, which the claim counts as a failed check, does not
    fail the call: the promise of [checkHosts] is fulfilled, with a result
    for that host whose date is invalid.  Nor does a certificate object
    without [subject]: the exception of the hydration leaves the callback
    and the promise of [checkHosts] stays pending. *)
Lemma checkHosts_undated_fulfilled :
  Date_parse sample_platform (valid_to undated_cert) = NaN
  ∧ (∃ x,
       r_all (checkHosts sample_platform default_config [1%positive]
                sample_heap [Response 0 undated_cert sample_now])
       = Fulfilled [Some x]
       ∧ validTo x = {| time_value := NaN |})
  ∧ r_all (checkHosts sample_platform default_config [1%positive]
             sample_heap [Response 0 empty_cert sample_now])
    = Pending.
Proof.
  split; [reflexivity|]. split; [|reflexivity].
  eexists. split; reflexivity.
Qed.

Lemma requested_all (hosts : list loc) (ps : list (pstate CheckResult)) :
  length ps = length hosts →
  (∀ i p, ps !! i = Some p → p = Pending) →
  requested hosts ps = hosts.
Proof.
  revert ps. induction hosts as [|l hosts IH]; intros [|p ps] Hlen Hall;
    try done.
  rewrite (Hall 0%nat p eq_refl). simpl. f_equal. apply IH.
  - simpl in Hlen. lia.
  - intros i q Hq. by apply (Hall (S i)).
Qed.

(** C10.  [checkHosts] works on the caller's host objects themselves: the
    array it checks holds the references it was given, the requests are made
    with those references as options (one for every host whose request
    could be made, so one for every host when no executor throws), the
    objects behind them carry the resolved [port], [alertWindowDays],
    [headers] and [method] afterwards, and the [host] of the result at
    position [i] is the reference at position [i] of the input. *)
Theorem checkHosts_in_place (P : Platform) (cfg : Config) (hosts : list loc)
    (h : heap) (events : list Event) :
  (∀ l, l ∈ hosts → l ∈ dom h) →
  let run := checkHosts P cfg hosts h events in
  r_hosts run = hosts
  ∧ req_options <$> r_requests run
    = requested hosts (r_promises (checkHosts_start P cfg hosts h))
  ∧ (none_rejected (checkHosts_start P cfg hosts h) →
     req_options <$> r_requests run = hosts)
  ∧ (∀ l, l ∈ hosts →
       get (r_heap run) l "port"
       = js_or (get h l "port") (VNum (defaultPort cfg))
       ∧ get (r_heap run) l "alertWindowDays"
         = js_or (get h l "alertWindowDays")
                 (VNum (defaultAlertWindowDays cfg))
       ∧ (∃ hd : loc,
            (hd ∉ dom h)
            ∧ get (r_heap run) l "headers" = VRef hd
            ∧ get (r_heap run) hd "User-Agent"
              = js_or (get h l "userAgent") (VStr (userAgent cfg)))
       ∧ get (r_heap run) l "method" = VStr "GET")
  ∧ (∀ vs i x, r_all run = Fulfilled vs → vs !! i = Some (Some x) →
       hosts !! i = Some (host x)).
Proof.
  intros Hin run.
  destruct (run_frame P events (checkHosts_start P cfg hosts h))
    as (_ & Hhosts & Hreqs).
  destruct (checkHosts_start_shape P cfg hosts h)
    as (Hh0 & Hlen0 & Hnf0 & _ & _ & _ & Hr0 & _).
  pose proof (consistent_run P events _ (consistent_start P cfg hosts h))
    as (_ & Hval & _ & Hhost & Hall).
  fold (checkHosts P cfg hosts h events) in Hhosts, Hreqs, Hval, Hhost, Hall.
  fold run in Hhosts, Hreqs, Hval, Hhost, Hall.
  rewrite Hh0 in Hhosts. rewrite Hr0 in Hreqs.
  assert (Hopt : req_options <$> r_requests run
                 = requested hosts (r_promises (checkHosts_start P cfg hosts h))).
  { rewrite Hreqs, <- list_fmap_compose. apply list_fmap_id. }
  split; [done|]. split; [done|]. split.
  { intros Hnone. rewrite Hopt. apply requested_all; [done|].
    intros i p Hp. destruct p as [|x|e];
      [done|by apply Hnf0 in Hp|by apply Hnone in Hp]. }
  split.
  - intros l Hl.
    destruct (checkHosts_host P cfg hosts h events l Hin Hl)
      as (Hp & Ha & Hhd & Hm & _).
    by repeat split.
  - intros vs i x Hvs Hi. rewrite Hvs in Hall. destruct Hall as [-> _].
    rewrite Hval, list_lookup_fmap in Hi. rewrite <- Hhosts. apply Hhost.
    destruct (r_promises run !! i) as [[|y|]|]; simpl in Hi; congruence.
Qed.

Lemma checkHosts_in_place_witness :
  let run := checkHosts sample_platform default_config
               [1%positive; 2%positive] sample_heap
               [Response 1 sample_cert sample_now] in
  r_hosts run = [1%positive; 2%positive]
  ∧ req_options <$> r_requests run = [1%positive; 2%positive].
Proof.
  destruct (checkHosts_in_place sample_platform default_config
              [1%positive; 2%positive] sample_heap
              [Response 1 sample_cert sample_now])
    as (Hh & _ & Hr & _).
  - sample_hosts.
  - split; [exact Hh|]. apply Hr. sample_made.
Defined.

(** ** The scenarios of the test suite *)

(** Default configuration, one host, a certificate ending in 60 days. *)
Example scenario_single_host :
  r_all (checkHosts sample_platform default_config [1%positive] sample_heap
           [Response 0 sample_cert sample_now])
  = Fulfilled
      [Some
         {| host := 1%positive;
            details :=
              {| d_subject :=
                   {| s_org := VStr "Org name";
                      s_commonName := VStr "Common name";
                      s_altName := VStr "Alt name" |};
                 d_issuer :=
                   {| i_org := VUndefined;
                      i_commonName := VStr "Issuer common name" |} |};
            validFrom := {| time_value := Int 1570060800000 |};
            validTo := {| time_value := Int 1583020800000 |};
            expiry :=
              {| days := Int 60;
                 milliseconds := Int 5184000000;
                 isExpired := false;
                 isInAlertWindow := false |} |}].
Proof. reflexivity. Qed.

(** The same certificate with [alertWindowDays] overridden to 120. *)
Example scenario_alert_window :
  ∃ x, r_all (checkHosts sample_platform default_config [2%positive]
                sample_heap [Response 0 sample_cert sample_now])
       = Fulfilled [Some x]
       ∧ days (expiry x) = Int 60
       ∧ isInAlertWindow (expiry x) = true.
Proof. eexists. split; [reflexivity|]. by split. Qed.

(** A certificate that ended five days ago. *)
Example scenario_expired :
  ∃ x, r_all (checkHosts sample_platform default_config [1%positive]
                sample_heap [Response 0 expired_cert sample_now])
       = Fulfilled [Some x]
       ∧ days (expiry x) = Int (-5)
       ∧ isExpired (expiry x) = true.
Proof. eexists. split; [reflexivity|]. by split. Qed.

(** An error of the request is what the caller catches. *)
Example scenario_error :
  r_all (checkHosts sample_platform default_config [1%positive] sample_heap
           [ErrorEvent 0 (VStr "it failed yo") sample_now])
  = Rejected (VStr "it failed yo").
Proof. reflexivity. Qed.

(** A certificate object without [subject]: the exception leaves the
    response callback and the promise stays pending. *)
Example scenario_uncaught :
  let run := checkHosts sample_platform default_config [1%positive]
               sample_heap [Response 0 empty_cert sample_now] in
  r_all run = Pending
  ∧ r_uncaught run
    = [TypeError "Cannot read properties of undefined: subject"].
Proof. split; reflexivity. Qed.

(** No host at all: [Promise.all] of an empty array. *)
Example scenario_no_host :
  r_all (checkHosts sample_platform default_config [] sample_heap [])
  = Fulfilled [].
Proof. reflexivity. Qed.

(** * Further properties of the class *)

(** ** [getExpiry]: where the flags switch *)

(** X1.  Because [days] is rounded, a certificate counts as expired exactly
    when fewer than twelve hours (43200000 ms) are left on the clock. *)
Theorem isExpired_threshold (P : Platform) (validTo now : Z) (h : heap)
    (hostRef : loc) :
  isExpired (getExpiry P {| time_value := Int validTo |} hostRef
                       {| w_heap := h; w_clock := now |})
  = (validTo - now <? 43200000).
Proof.
  unfold getExpiry. cbn [isExpired w_clock time_value].
  rewrite Math_round_days, num_le_Int.
  destruct (Z.ltb_spec (validTo - now) 43200000) as [Hlt|Hge].
  - apply Z.leb_le. Z.div_mod_to_equations. lia.
  - apply Z.leb_gt. Z.div_mod_to_equations. lia.
Qed.

(** X2.  With an integer [alertWindowDays] of [n] on the host, the
    certificate is in the alert window exactly when fewer than [n] days and
    twelve hours are left. *)
Theorem isInAlertWindow_threshold (P : Platform) (validTo now n : Z)
    (h : heap) (hostRef : loc) :
  get h hostRef "alertWindowDays" = VNum (Int n) →
  isInAlertWindow (getExpiry P {| time_value := Int validTo |} hostRef
                             {| w_heap := h; w_clock := now |})
  = (validTo - now <? 86400000 * n + 43200000).
Proof.
  intros Hn. unfold getExpiry. cbn [isInAlertWindow w_clock w_heap time_value].
  rewrite Hn, Math_round_days. cbn [ToNumber]. rewrite num_le_Int.
  destruct (Z.ltb_spec (validTo - now) (86400000 * n + 43200000)) as [Hlt|Hge].
  - apply Z.leb_le. Z.div_mod_to_equations. lia.
  - apply Z.leb_gt. Z.div_mod_to_equations. lia.
Qed.

Lemma isInAlertWindow_threshold_witness :
  isInAlertWindow
    (getExpiry sample_platform {| time_value := Int 1583020800000 |}
               2%positive {| w_heap := sample_heap; w_clock := sample_now |})
  = (1583020800000 - sample_now <? 86400000 * 120 + 43200000).
Proof.
  apply isInAlertWindow_threshold. reflexivity.
Defined.

(** X3.  As the clock advances the flags of a valid certificate only switch
    on: what is expired stays expired, what is in the alert window stays in
    it, whatever the host's [alertWindowDays] is. *)
Theorem flags_persist (P : Platform) (validTo now now' : Z) (h : heap)
    (hostRef : loc) :
  now <= now' →
  let e := getExpiry P {| time_value := Int validTo |} hostRef
                     {| w_heap := h; w_clock := now |} in
  let e' := getExpiry P {| time_value := Int validTo |} hostRef
                      {| w_heap := h; w_clock := now' |} in
  (isExpired e = true → isExpired e' = true)
  ∧ (isInAlertWindow e = true → isInAlertWindow e' = true).
Proof.
  intros Hle e e'. subst e e'. unfold getExpiry.
  cbn [isExpired isInAlertWindow w_clock w_heap time_value].
  rewrite !Math_round_days.
  assert (Hd : (2 * (validTo - now') + 86400000) / 172800000
               <= (2 * (validTo - now) + 86400000) / 172800000).
  { apply Z.div_le_mono; lia. }
  split.
  - rewrite !num_le_Int, !Z.leb_le. lia.
  - destruct (ToNumber P _) as [|q]; [done|].
    unfold num_le, Int. rewrite !Qle_bool_iff. intros Hq.
    eapply Qle_trans; [|exact Hq]. by rewrite <- Zle_Qle.
Qed.

Lemma flags_persist_witness :
  isExpired (getExpiry sample_platform {| time_value := Int 1577404800000 |}
               1%positive
               {| w_heap := sample_heap; w_clock := sample_now + 86400000 |})
  = true.
Proof.
  destruct (flags_persist sample_platform 1577404800000 sample_now
              (sample_now + 86400000) sample_heap 1%positive) as [He _].
  - unfold sample_now. lia.
  - apply He. reflexivity.
Defined.

(** ** [parseDate] and [hydrateResultObject] *)

Lemma TimeClip_Int (t : Z) :
  TimeClip (Int t)
  = if Z.abs t <=? 8640000000000000 then Int t else NaN.
Proof.
  unfold TimeClip, Int, Qle_bool, Qabs, inject_Z, Qtruncate. simpl.
  rewrite !Z.mul_1_r, ?Z.quot_1_r. reflexivity.
Qed.

(** X4.  [hydrateResultObject] throws exactly when the raw certificate has
    no [subject] or no [issuer] object, and then it throws a [TypeError];
    the host, the clock and the date strings play no part in it. *)
Theorem hydrateResultObject_throws (P : Platform) (raw : RawCert) (l : loc)
    (w : World) :
  (subject raw = None ∨ issuer raw = None
   ↔ ∃ e, hydrateResultObject P raw l w = Throw e)
  ∧ (∀ e, hydrateResultObject P raw l w = Throw e → ∃ msg, e = TypeError msg).
Proof.
  unfold hydrateResultObject.
  destruct (subject raw) as [s|], (issuer raw) as [i|]; simpl.
  - split; [split|]; [by intros [?|?]|by intros [e ?]|done].
  - split; [split|]; [by eexists|by right|intros e [= <-]; by eexists].
  - split; [split|]; [by eexists|by left|intros e [= <-]; by eexists].
  - split; [split|]; [by eexists|by left|intros e [= <-]; by eexists].
Qed.

(** X5.  When [Date.parse] reads [valid_to] as the time value [t], within
    the range of a [Date], the result carries [t] as [validTo] and the
    expiry is the one of [t] at the clock reading: [milliseconds] is the
    time left and the certificate is expired when fewer than twelve hours
    are left.  A [valid_from] that cannot be parsed changes nothing of
    that. *)
Theorem hydrateResultObject_valid_to (P : Platform) (raw : RawCert) (l : loc)
    (h : heap) (now t : Z) (x : CheckResult) :
  Date_parse P (valid_to raw) = Int t →
  Z.abs t <= 8640000000000000 →
  hydrateResultObject P raw l {| w_heap := h; w_clock := now |} = Ok x →
  validTo x = {| time_value := Int t |}
  ∧ milliseconds (expiry x) = Int (t - now)
  ∧ days (expiry x) = Int ((2 * (t - now) + 86400000) / 172800000)
  ∧ isExpired (expiry x) = (t - now <? 43200000).
Proof.
  intros Hparse Hrange. unfold hydrateResultObject.
  destruct (subject raw) as [s|], (issuer raw) as [i|]; simpl; try done.
  intros [= <-]. cbn [validTo expiry]. unfold parseDate.
  rewrite Hparse, TimeClip_Int.
  destruct (Z.leb_spec (Z.abs t) 8640000000000000) as [_|?]; [|lia].
  unfold getExpiry.
  cbn [days milliseconds isExpired w_clock time_value].
  rewrite Math_round_days, num_sub_Int, num_le_Int.
  repeat split.
  destruct (Z.ltb_spec (t - now) 43200000) as [Hlt|Hge].
  - apply Z.leb_le. Z.div_mod_to_equations. lia.
  - apply Z.leb_gt. Z.div_mod_to_equations. lia.
Qed.

Lemma hydrateResultObject_valid_to_witness :
  ∃ x,
    hydrateResultObject sample_platform expired_cert 1%positive
      {| w_heap := sample_heap; w_clock := sample_now |} = Ok x
    ∧ validTo x = {| time_value := Int 1577404800000 |}
    ∧ days (expiry x) = Int (-5).
Proof.
  eexists. split; [reflexivity|].
  destruct (hydrateResultObject_valid_to sample_platform expired_cert
              1%positive sample_heap sample_now 1577404800000 _
              eq_refl ltac:(lia) eq_refl) as (Hv & _ & Hd & _).
  split; [exact Hv|exact Hd].
Defined.

(** ** [buildHostConfig]: what it keeps and what it replaces *)

Lemma get_outside (h : heap) (l : loc) (k : string) :
  l ∉ dom h → get h l k = VUndefined.
Proof. intros Hl. apply not_elem_of_dom in Hl. unfold get. by rewrite Hl. Qed.

Lemma js_or_truthy (v d : value) : truthy d = true → truthy (js_or v d) = true.
Proof. unfold js_or. intros Hd. by destruct (truthy v) eqn:Hv. Qed.

Lemma js_or_of_truthy (v d : value) : truthy v = true → js_or v d = v.
Proof. unfold js_or. by intros ->. Qed.

(** X6.  [buildHostConfig] writes nothing but [port], [alertWindowDays] and
    [headers] on the hosts of the list: every other property of a host (its
    [hostname], its [userAgent], ...) and every object that is not in the
    list is as the caller left it. *)
Theorem buildHostConfig_frame (cfg : Config) (hosts : list loc) (h : heap)
    (l : loc) (k : string) :
  (∀ l', l' ∈ hosts → l' ∈ dom h) →
  l ∈ dom h →
  l ∉ hosts ∨ (k ≠ "port" ∧ k ≠ "alertWindowDays" ∧ k ≠ "headers") →
  get (buildHostConfig cfg hosts h).2 l k = get h l k.
Proof.
  intros Hin Hl Hor.
  destruct (buildHostConfig_spec cfg hosts h Hin) as (_ & _ & _ & Hframe).
  by apply Hframe.
Qed.

Lemma buildHostConfig_frame_witness :
  get (buildHostConfig default_config [2%positive] sample_heap).2
      1%positive "hostname" = VStr "www.google.com"
  ∧ get (buildHostConfig default_config [2%positive] sample_heap).2
        2%positive "hostname" = VStr "www.facebook.com".
Proof.
  split.
  - apply (buildHostConfig_frame default_config [2%positive] sample_heap
             1%positive "hostname").
    + sample_hosts.
    + apply elem_of_dom. eexists. reflexivity.
    + left. intros Hl. apply elem_of_cons in Hl as [Hl|Hl];
        [discriminate Hl|by apply elem_of_nil in Hl].
  - apply (buildHostConfig_frame default_config [2%positive] sample_heap
             2%positive "hostname").
    + sample_hosts.
    + apply elem_of_dom. eexists. reflexivity.
    + right. by repeat split.
Defined.

(** The [headers] object of each host after [buildHostConfig]. *)
Lemma buildHostConfig_headers (cfg : Config) (hosts : list loc) :
  ∀ h : heap,
    (∀ l, l ∈ hosts → l ∈ dom h) →
    ∀ l, l ∈ hosts →
      ∃ hd : loc,
        (hd ∉ dom h)
        ∧ get (buildHostConfig cfg hosts h).2 l "headers" = VRef hd
        ∧ (∀ k, k ≠ "User-Agent" →
             get (buildHostConfig cfg hosts h).2 hd k = VUndefined)
        ∧ (∀ l2, l2 ∈ hosts → l2 ≠ l →
             get (buildHostConfig cfg hosts h).2 l2 "headers" ≠ VRef hd).
Proof.
  induction hosts as [|a rest IH]; intros h Hin l Hl.
  { by apply elem_of_nil in Hl. }
  destruct (buildHost_get cfg a h) as (hda & Hhda & Hdom1 & Hget1).
  { apply Hin. left. }
  rewrite buildHostConfig_cons. cbn [fst snd].
  set (h1 := (buildHost cfg a h).2) in *.
  assert (Hrest : ∀ l', l' ∈ rest → l' ∈ dom h)
    by (intros l' Hl'; apply Hin; by right).
  assert (Hrest1 : ∀ l', l' ∈ rest → l' ∈ dom h1).
  { intros l' Hl'. rewrite Hdom1. apply elem_of_union_r. by apply Hrest. }
  destruct (buildHostConfig_spec cfg rest h1 Hrest1) as (_ & _ & Hres & Hframe).
  specialize (IH h1 Hrest1).
  set (h2 := (buildHostConfig cfg rest h1).2) in *.
  assert (Hhda1 : hda ∈ dom h1) by (rewrite Hdom1; set_solver).
  assert (Hhdar : hda ∉ rest) by (intros ?; apply Hhda; by apply Hrest).
  assert (Hnea : hda ≠ a) by (intros ->; apply Hhda, Hin; left).
  assert (Ha1 : a ∈ dom h1).
  { rewrite Hdom1. apply elem_of_union_r, Hin. left. }
  assert (Hfresh : ∀ l', l' ∈ rest → ∃ hd', (hd' ∉ dom h1)
                     ∧ get h2 l' "headers" = VRef hd').
  { intros l' Hl'. destruct (Hres l' Hl')
      as (_ & _ & (hd' & Hn & _ & Hh & _) & _). by exists hd'. }
  destruct (decide (l ∈ rest)) as [Hlr|Hlr].
  - destruct (IH l Hlr) as (hd & Hhd & Hh & Honly & Hdist).
    exists hd. split; [set_solver|]. split; [done|]. split; [done|].
    intros l2 Hl2 Hne. destruct (decide (l2 ∈ rest)) as [H2|H2];
      [by apply Hdist|].
    assert (l2 = a) as -> by (apply elem_of_cons in Hl2 as [?|?]; done).
    rewrite Hframe, Hget1 by auto. decide_cases.
  - assert (l = a) as -> by (apply elem_of_cons in Hl as [?|?]; done).
    exists hda. split; [done|]. split.
    { rewrite Hframe, Hget1 by auto. decide_cases. }
    split.
    + intros k Hk. rewrite Hframe, Hget1 by auto.
      rewrite decide_False by done.
      rewrite decide_False by (by intros [_ ?]). by apply get_outside.
    + intros l2 Hl2 Hne.
      assert (H2 : l2 ∈ rest) by (apply elem_of_cons in Hl2 as [?|?]; done).
      destruct (Hfresh l2 H2) as (hd' & Hn & ->). congruence.
Qed.

(** X7.  [buildHostConfig] gives every host a [headers] object of its own:
    the object did not exist before the call (so a [headers] object the
    caller had put on the host is dropped), it holds nothing but the
    [User-Agent] entry, and no other host of the list refers to it. *)
Theorem buildHostConfig_fresh_headers (cfg : Config) (hosts : list loc)
    (h : heap) (l : loc) :
  (∀ l', l' ∈ hosts → l' ∈ dom h) →
  l ∈ hosts →
  ∃ hd : loc,
    get (buildHostConfig cfg hosts h).2 l "headers" = VRef hd
    ∧ (hd ∉ dom h)
    ∧ (∀ k, k ≠ "User-Agent" →
         get (buildHostConfig cfg hosts h).2 hd k = VUndefined)
    ∧ (∀ l2, l2 ∈ hosts → l2 ≠ l →
         get (buildHostConfig cfg hosts h).2 l2 "headers" ≠ VRef hd).
Proof.
  intros Hin Hl.
  destruct (buildHostConfig_headers cfg hosts h Hin l Hl)
    as (hd & Hhd & Hh & Honly & Hdist).
  exists hd. repeat split; try done.
Qed.

Lemma buildHostConfig_fresh_headers_witness :
  ∃ hd : loc,
    get (buildHostConfig default_config [1%positive; 2%positive] sample_heap).2
        1%positive "headers" = VRef hd
    ∧ get (buildHostConfig default_config [1%positive; 2%positive]
             sample_heap).2 2%positive "headers" ≠ VRef hd.
Proof.
  destruct (buildHostConfig_fresh_headers default_config
              [1%positive; 2%positive] sample_heap 1%positive)
    as (hd & Hh & _ & _ & Hdist).
  - sample_hosts.
  - left.
  - exists hd. split; [exact Hh|]. apply Hdist; [right; left|discriminate].
Defined.

(** X8.  Resolved values stick to the host object.  When the hosts are
    resolved a second time, by an instance with another configuration, a
    truthy [port] and [alertWindowDays] of the first resolution are kept
    (the defaults of the second instance are not applied), while the
    [User-Agent] header is computed again from the host's [userAgent] and
    the second instance's default. *)
Theorem buildHostConfig_twice (cfg1 cfg2 : Config) (hosts : list loc)
    (h : heap) (l : loc) :
  (∀ l', l' ∈ hosts → l' ∈ dom h) →
  l ∈ hosts →
  let h1 := (buildHostConfig cfg1 hosts h).2 in
  let h2 := (buildHostConfig cfg2 hosts h1).2 in
  (truthy (VNum (defaultPort cfg1)) = true →
   get h2 l "port" = get h1 l "port")
  ∧ (truthy (VNum (defaultAlertWindowDays cfg1)) = true →
     get h2 l "alertWindowDays" = get h1 l "alertWindowDays")
  ∧ (∃ hd : loc,
       get h2 l "headers" = VRef hd
       ∧ get h2 hd "User-Agent"
         = js_or (get h l "userAgent") (VStr (userAgent cfg2))).
Proof.
  intros Hin Hl h1 h2.
  destruct (buildHostConfig_spec cfg1 hosts h Hin) as (_ & Hdom & Hres1 & _).
  fold h1 in Hdom, Hres1.
  assert (Hin1 : ∀ l', l' ∈ hosts → l' ∈ dom h1).
  { intros l' Hl'. apply Hdom. by apply Hin. }
  destruct (buildHostConfig_spec cfg2 hosts h1 Hin1) as (_ & _ & Hres2 & _).
  fold h2 in Hres2.
  destruct (Hres1 l Hl) as (Hp1 & Ha1 & _ & Hk1).
  destruct (Hres2 l Hl) as (Hp2 & Ha2 & (hd & _ & _ & Hh & Hua) & _).
  split; [|split].
  - intros Ht. rewrite Hp2. apply js_or_of_truthy.
    rewrite Hp1. by apply js_or_truthy.
  - intros Ht. rewrite Ha2. apply js_or_of_truthy.
    rewrite Ha1. by apply js_or_truthy.
  - exists hd. split; [done|]. rewrite Hua. f_equal.
    apply Hk1. by repeat split.
Qed.

Lemma buildHostConfig_twice_witness :
  get (buildHostConfig
         {| timeout := Int 6000; defaultPort := Int 8080;
            defaultAlertWindowDays := Int 10; userAgent := "My user agent" |}
         [1%positive]
         (buildHostConfig default_config [1%positive] sample_heap).2).2
      1%positive "port"
  = get (buildHostConfig default_config [1%positive] sample_heap).2
        1%positive "port".
Proof.
  destruct (buildHostConfig_twice default_config
              {| timeout := Int 6000; defaultPort := Int 8080;
                 defaultAlertWindowDays := Int 10;
                 userAgent := "My user agent" |}
              [1%positive] sample_heap 1%positive) as (Hp & _).
  - sample_hosts.
  - left.
  - apply Hp. reflexivity.
Defined.

(** ** [checkHosts]: requests, and where its outcome comes from *)

Lemma step_length (P : Platform) (run : Run) (ev : Event) :
  length (r_promises (step P run ev)) = length (r_promises run).
Proof.
  destruct ev as [i raw t|i e t]; simpl.
  - destruct (r_hosts run !! i); [|done].
    destruct (hydrateResultObject _ _ _ _); [|done]. unfold resolve.
    destruct (r_promises run !! i) as [[| |]|]; try done. simpl.
    apply length_insert.
  - unfold reject.
    destruct (r_promises run !! i) as [[| |]|]; try done. simpl.
    apply length_insert.
Qed.

(** A promise fulfilled by an event was fulfilled by a response that
    hydrated. *)
Lemma step_fulfilled_origin (P : Platform) (run : Run) (ev : Event) (i : nat)
    (x : CheckResult) :
  r_promises (step P run ev) !! i = Some (Fulfilled x) →
  r_promises run !! i = Some (Fulfilled x)
  ∨ ∃ raw t l,
      ev = Response i raw t ∧ r_hosts run !! i = Some l
      ∧ hydrateResultObject P raw l {| w_heap := r_heap run; w_clock := t |}
        = Ok x.
Proof.
  destruct ev as [j raw t|j e t]; simpl.
  - destruct (r_hosts run !! j) as [l|] eqn:Hl; [|by left].
    destruct (hydrateResultObject _ _ _ _) as [y|e] eqn:Hhy; [|by left].
    unfold resolve.
    destruct (r_promises run !! j) as [[| |]|] eqn:Hj; try by left.
    simpl. intros Hi. apply list_lookup_insert_Some in Hi
      as [(<- & [= <-] & _)|[_ Hi]]; [|by left].
    right. by exists raw, t, l.
  - unfold reject.
    destruct (r_promises run !! j) as [[| |]|] eqn:Hj; try by left.
    simpl. intros Hi. apply list_lookup_insert_Some in Hi
      as [(_ & [=] & _)|[_ Hi]]. by left.
Qed.

Lemma run_fulfilled_origin (P : Platform) (events : list Event) (i : nat)
    (x : CheckResult) :
  ∀ run : Run,
    r_promises (foldl (step P) run events) !! i = Some (Fulfilled x) →
    r_promises run !! i = Some (Fulfilled x)
    ∨ ∃ raw t l,
        Response i raw t ∈ events ∧ r_hosts run !! i = Some l
        ∧ hydrateResultObject P raw l {| w_heap := r_heap run; w_clock := t |}
          = Ok x.
Proof.
  induction events as [|ev rest IH]; intros run Hi; [by left|].
  cbn [foldl] in Hi. destruct (step_frame P run ev) as (Hheap & Hhosts & _).
  destruct (IH _ Hi) as [Hnow|(raw & t & l & Hin & Hl & Hhy)].
  - destruct (step_fulfilled_origin P run ev i x Hnow)
      as [?|(raw & t & l & -> & Hl & Hhy)]; [by left|].
    right. exists raw, t, l. split; [left|done].
  - right. exists raw, t, l. rewrite <- Hhosts, <- Hheap.
    split; [by right|done].
Qed.

(** A rejection of the promise of [checkHosts] comes from an error event for
    one of its requests. *)
Lemma run_rejected_origin (P : Platform) (events : list Event) (e : value) :
  ∀ run : Run,
    r_all (foldl (step P) run events) = Rejected e →
    r_all run = Rejected e
    ∨ ∃ i t, ErrorEvent i e t ∈ events
             ∧ (i < length (r_promises run))%nat.
Proof.
  induction events as [|ev rest IH]; intros run Hrej; [by left|].
  cbn [foldl] in Hrej.
  destruct (IH _ Hrej) as [Hnow|(i & t & Hin & Hi)].
  - destruct ev as [j raw t|j e' t]; simpl in Hnow.
    + destruct (r_hosts run !! j); [|by left].
      destruct (hydrateResultObject _ _ _ _); [|by left].
      unfold resolve in Hnow.
      destruct (r_promises run !! j) as [[| |]|]; try by left.
      simpl in Hnow. destruct (r_all run); [|done|by left].
      by destruct (Nat.eqb _ _).
    + unfold reject in Hnow.
      destruct (r_promises run !! j) as [[| |]|] eqn:Hj; try by left.
      simpl in Hnow. destruct (r_all run); [|done|by left].
      injection Hnow as ->. right. exists j, t. split; [left|].
      by eapply lookup_lt_Some.
  - right. exists i, t. split; [by right|]. by rewrite step_length in Hi.
Qed.

Lemma hydrate_expiry (P : Platform) (raw : RawCert) (l : loc) (w : World)
    (x : CheckResult) :
  hydrateResultObject P raw l w = Ok x →
  expiry x = getExpiry P (parseDate P (valid_to raw)) l w.
Proof.
  unfold hydrateResultObject.
  destruct (subject raw), (issuer raw); simpl; try discriminate.
  by intros [= <-].
Qed.

Lemma hydrate_throws (P : Platform) (raw : RawCert) (l : loc) (w : World) :
  subject raw = None ∨ issuer raw = None →
  ∃ e, hydrateResultObject P raw l w = Throw e.
Proof.
  unfold hydrateResultObject.
  destruct (subject raw), (issuer raw); simpl; intros [?|?]; try done;
    by eexists.
Qed.



(** X10.  For an empty list of hosts [checkHosts] is fulfilled at once with
    the empty array: nothing is requested, the heap is not touched, and no
    event changes that. *)
Theorem checkHosts_empty (P : Platform) (cfg : Config) (h : heap)
    (events : list Event) :
  let run := checkHosts P cfg [] h events in
  r_all run = Fulfilled [] ∧ r_heap run = h ∧ r_requests run = []
  ∧ r_uncaught run = [].
Proof.
  unfold checkHosts.
  assert (Hfix : ∀ run : Run,
            r_hosts run = [] → r_promises run = [] →
            foldl (step P) run events = run).
  { induction events as [|ev rest IH]; intros run Hh Hp; [done|].
    cbn [foldl].
    assert (Hstep : step P run ev = run).
    { destruct ev as [i raw t|i e t]; simpl.
      - by rewrite Hh.
      - unfold reject. by rewrite Hp. }
    rewrite Hstep. by apply IH. }
  rewrite Hfix; by repeat split.
Qed.

(** X11.  All or nothing, read from the result: when the promise of
    [checkHosts] is fulfilled, the array has one entry per host, none of
    them missing, and the entry at position [i] was hydrated from a
    response to the request of the host at position [i]. *)
Theorem checkHosts_fulfilled (P : Platform) (cfg : Config) (hosts : list loc)
    (h : heap) (events : list Event) (vs : slots) :
  (∀ l, l ∈ hosts → l ∈ dom h) →
  r_all (checkHosts P cfg hosts h events) = Fulfilled vs →
  length vs = length hosts
  ∧ ∀ i l, hosts !! i = Some l →
      ∃ raw t x,
        Response i raw t ∈ events
        ∧ hydrateResultObject P raw l
            {| w_heap := r_heap (checkHosts_start P cfg hosts h);
               w_clock := t |} = Ok x
        ∧ vs !! i = Some (Some x).
Proof.
  intros Hin Hful.
  pose proof (consistent_run P events _ (consistent_start P cfg hosts h))
    as (Hlen & Hval & Hrem & _ & Hall).
  destruct (run_frame P events (checkHosts_start P cfg hosts h))
    as (_ & Hhosts & _).
  destruct (checkHosts_start_shape P cfg hosts h) as (Hh0 & _ & Hnf0 & _).
  fold (checkHosts P cfg hosts h events) in Hlen, Hval, Hrem, Hall, Hhosts.
  rewrite Hful in Hall. destruct Hall as [-> H0].
  rewrite Hhosts, Hh0 in Hlen. rewrite Hrem in H0.
  rewrite Hval, length_fmap. split; [done|].
  intros i l Hl.
  destruct (lookup_lt_is_Some_2 (r_promises (checkHosts P cfg hosts h events)) i)
    as [p Hp].
  { rewrite Hlen. by eapply lookup_lt_Some. }
  destruct (awaited_none _ _ _ H0 Hp) as [x ->].
  destruct (run_fulfilled_origin P events i x _ Hp)
    as [Hstart|(raw & t & l' & Hev & Hl' & Hhy)].
  - by apply Hnf0 in Hstart.
  - rewrite Hh0, Hl in Hl'. injection Hl' as <-.
    exists raw, t, x. repeat split; try done.
    by rewrite list_lookup_fmap, Hp.
Qed.

Lemma checkHosts_fulfilled_witness :
  ∃ raw t x,
    Response 0 raw t ∈ [Response 0 sample_cert sample_now]
    ∧ hydrateResultObject sample_platform raw 1%positive
        {| w_heap := r_heap (checkHosts_start sample_platform default_config [1%positive]
                               sample_heap);
           w_clock := t |} = Ok x.
Proof.
  destruct (checkHosts_fulfilled sample_platform default_config [1%positive]
              sample_heap [Response 0 sample_cert sample_now] _
              ltac:(sample_hosts) eq_refl) as [_ Hall].
  destruct (Hall 0%nat 1%positive eq_refl) as (raw & t & x & Hev & Hhy & _).
  by exists raw, t, x.
Defined.

(** X12.  The error [checkHosts] is rejected with is always either the
    exception one of its executors threw (the promise of that host is
    rejected before any event) or the error of an ['error'] event of one
    of its requests: an exception thrown while a certificate is hydrated
    never becomes the rejection. *)
Theorem checkHosts_rejected_origin (P : Platform) (cfg : Config)
    (hosts : list loc) (h : heap) (events : list Event) (e : value) :
  r_all (checkHosts P cfg hosts h events) = Rejected e →
  (∃ i, (i < length hosts)%nat
        ∧ r_promises (checkHosts_start P cfg hosts h) !! i
          = Some (Rejected e))
  ∨ (∃ i t, ErrorEvent i e t ∈ events ∧ (i < length hosts)%nat).
Proof.
  intros Hrej. unfold checkHosts in Hrej.
  destruct (checkHosts_start_shape P cfg hosts h)
    as (_ & Hlen & _ & _ & _ & Ha0 & _).
  destruct (run_rejected_origin P events e _ Hrej)
    as [Hstart|(i & t & Hev & Hi)].
  - left. rewrite Ha0 in Hstart. unfold all_start in Hstart.
    destruct (r_promises (checkHosts_start P cfg hosts h)) as [|p ps] eqn:Hps;
      [done|].
    destruct (first_rejected (p :: ps)) as [e'|] eqn:Hfr; [|done].
    injection Hstart as ->. apply first_rejected_Some in Hfr as [i Hi].
    exists i. split; [|done]. rewrite <- Hlen. by eapply lookup_lt_Some.
  - right. exists i, t. split; [done|]. by rewrite Hlen in Hi.
Qed.

Lemma checkHosts_rejected_origin_witness :
  (∃ i, (i < 2)%nat
        ∧ r_promises (checkHosts_start sample_platform default_config
                        [1%positive; 2%positive] sample_heap) !! i
          = Some (Rejected (VStr "it failed yo")))
  ∨ (∃ i t, ErrorEvent i (VStr "it failed yo") t
              ∈ [Response 1 sample_cert sample_now;
                 ErrorEvent 0 (VStr "it failed yo") (sample_now + 5)]
            ∧ (i < 2)%nat).
Proof.
  apply (checkHosts_rejected_origin sample_platform default_config
           [1%positive; 2%positive] sample_heap).
  reflexivity.
Defined.

(** X13.  A host whose request was made (its promise is pending when the
    executors have run) and gets no response and no error event, or only
    responses whose certificate has no [subject] or no [issuer], keeps its
    promise pending, and the promise of [checkHosts] is then never
    fulfilled: the exception of the hydration is not turned into a
    rejection of the host's promise. *)
Theorem checkHosts_stays_pending (P : Platform) (cfg : Config)
    (hosts : list loc) (h : heap) (events : list Event) (i : nat) (l : loc) :
  (∀ l', l' ∈ hosts → l' ∈ dom h) →
  hosts !! i = Some l →
  r_promises (checkHosts_start P cfg hosts h) !! i = Some Pending →
  (∀ ev, ev ∈ events → event_index ev = i →
     ∃ raw t, ev = Response i raw t
              ∧ (subject raw = None ∨ issuer raw = None)) →
  r_promises (checkHosts P cfg hosts h events) !! i = Some Pending
  ∧ ∀ vs, r_all (checkHosts P cfg hosts h events) ≠ Fulfilled vs.
Proof.
  intros Hin Hl Hp Hev.
  assert (Hpend : r_promises (checkHosts P cfg hosts h events) !! i
                  = Some Pending).
  { unfold checkHosts.
    revert Hp Hev. generalize (checkHosts_start P cfg hosts h).
    induction events as [|ev rest IH]; intros run Hp Hev; [done|].
    cbn [foldl]. apply IH.
    - destruct (decide (event_index ev = i)) as [Hi|Hi].
      + destruct (Hev ev) as (raw & t & -> & Hbad); [left|done|]. simpl.
        destruct (r_hosts run !! i) as [l'|]; [|done].
        destruct (hydrate_throws P raw l'
                    {| w_heap := r_heap run; w_clock := t |} Hbad)
          as [e ->]. done.
      + apply step_lookup; [done|by left].
    - intros ev' Hin'. apply Hev. by right. }
  split; [done|]. intros vs Hful.
  pose proof (consistent_run P events _ (consistent_start P cfg hosts h))
    as (_ & _ & Hrem & _ & Hall).
  fold (checkHosts P cfg hosts h events) in Hrem, Hall.
  rewrite Hful in Hall. destruct Hall as [_ H0]. rewrite Hrem in H0.
  by destruct (awaited_none _ _ _ H0 Hpend).
Qed.

Lemma checkHosts_stays_pending_witness :
  r_promises (checkHosts sample_platform default_config [1%positive]
                sample_heap [Response 0 empty_cert sample_now]) !! 0%nat
  = Some Pending.
Proof.
  apply (checkHosts_stays_pending sample_platform default_config [1%positive]
           sample_heap [Response 0 empty_cert sample_now] 0%nat 1%positive).
  - sample_hosts.
  - reflexivity.
  - reflexivity.
  - intros ev Hev _. apply list_elem_of_singleton in Hev as ->.
    exists empty_cert, sample_now. split; [reflexivity|by left].
Defined.

(** X14.  The flags of a delivered result are those of its own host: the
    result at position [i] refers to the host at position [i], and its
    [isInAlertWindow] compares [days] with that host's [alertWindowDays]
    when the caller gave a truthy one and with the instance's
    [defaultAlertWindowDays] otherwise (so a per-host window of [0] cannot
    be asked for). *)
Theorem checkHosts_alert_window (P : Platform) (cfg : Config)
    (hosts : list loc) (h : heap) (events : list Event) (vs : slots)
    (i : nat) (l : loc) (x : CheckResult) :
  (∀ l', l' ∈ hosts → l' ∈ dom h) →
  r_all (checkHosts P cfg hosts h events) = Fulfilled vs →
  hosts !! i = Some l →
  vs !! i = Some (Some x) →
  host x = l
  ∧ isInAlertWindow (expiry x)
    = num_le (days (expiry x))
             (ToNumber P (if truthy (get h l "alertWindowDays")
                          then get h l "alertWindowDays"
                          else VNum (defaultAlertWindowDays cfg)))
  ∧ isExpired (expiry x) = num_le (days (expiry x)) (Int 0).
Proof.
  intros Hin Hful Hl Hx.
  pose proof (consistent_run P events _ (consistent_start P cfg hosts h))
    as (_ & Hval & _ & _ & Hall).
  destruct (checkHosts_start_shape P cfg hosts h) as (Hh0 & _ & Hnf0 & _).
  fold (checkHosts P cfg hosts h events) in Hval, Hall.
  rewrite Hful in Hall. destruct Hall as [-> _].
  rewrite Hval, list_lookup_fmap in Hx.
  destruct (r_promises (checkHosts P cfg hosts h events) !! i)
    as [[|y|]|] eqn:Hp; simpl in Hx; try done. injection Hx as ->.
  destruct (run_fulfilled_origin P events i x _ Hp)
    as [Hstart|(raw & t & l' & Hev & Hl' & Hhy)].
  { by apply Hnf0 in Hstart. }
  rewrite Hh0, Hl in Hl'. injection Hl' as <-.
  split; [by eapply hydrate_host|].
  rewrite (hydrate_expiry _ _ _ _ _ Hhy). unfold getExpiry.
  cbn [isInAlertWindow isExpired days w_heap].
  destruct (checkHosts_host P cfg hosts h [] l Hin) as (_ & Ha & _).
  { by eapply list_elem_of_lookup_2. }
  unfold checkHosts in Ha. cbn [foldl] in Ha. rewrite Ha. by split.
Qed.

Lemma checkHosts_alert_window_witness :
  ∃ vs x,
    r_all (checkHosts sample_platform default_config
             [1%positive; 2%positive] sample_heap
             [Response 1 sample_cert sample_now;
              Response 0 sample_cert sample_now])
    = Fulfilled vs
    ∧ vs !! 1%nat = Some (Some x)
    ∧ isInAlertWindow (expiry x) = num_le (days (expiry x)) (Int 120).
Proof.
  eexists _, _. split; [reflexivity|]. split; [reflexivity|].
  eapply (checkHosts_alert_window sample_platform default_config
            [1%positive; 2%positive] sample_heap
            [Response 1 sample_cert sample_now;
             Response 0 sample_cert sample_now] _ 1%nat 2%positive);
    [sample_hosts|reflexivity|reflexivity|reflexivity].
Defined.

(** X15.  The constructor's defaults reach the hosts: for a host object
    without [port], [alertWindowDays] and [userAgent] of its own, the
    request is made with the port, alert window and user agent given to
    the constructor, and with [443], [30] and
    ["SSL Certificate Expiry Checker " + VERSION] for what was not given;
    the request's timeout is the one given, or [5000]. *)
Theorem constructor_defaults (P : Platform) (arg : ConfigArg)
    (hosts : list loc) (h : heap) (events : list Event) (l : loc) :
  (∀ l', l' ∈ hosts → l' ∈ dom h) →
  l ∈ hosts →
  get h l "port" = VUndefined →
  get h l "alertWindowDays" = VUndefined →
  get h l "userAgent" = VUndefined →
  let run := checkHosts P (constructor P arg) hosts h events in
  get (r_heap run) l "port" = VNum (default (Int 443) (arg_defaultPort arg))
  ∧ get (r_heap run) l "alertWindowDays"
    = VNum (default (Int 30) (arg_defaultAlertWindowDays arg))
  ∧ (∃ hd : loc,
       get (r_heap run) l "headers" = VRef hd
       ∧ get (r_heap run) hd "User-Agent"
         = VStr (default ("SSL Certificate Expiry Checker " +:+ VERSION P)
                         (arg_userAgent arg)))
  ∧ (∀ r, r ∈ r_requests run →
          req_timeout r = default (Int 5000) (arg_timeout arg)).
Proof.
  intros Hin Hl Hp Ha Hu run.
  destruct (checkHosts_host P (constructor P arg) hosts h events l Hin Hl)
    as (Hp' & Ha' & (hd & _ & Hh & Hua) & _).
  fold run in Hp', Ha', Hh, Hua.
  rewrite Hp in Hp'. rewrite Ha in Ha'. rewrite Hu in Hua.
  split; [done|]. split; [done|]. split; [by exists hd|].
  intros r Hr. subst run. unfold checkHosts in Hr.
  destruct (run_frame P events (checkHosts_start P (constructor P arg) hosts h))
    as (_ & _ & Hreq). rewrite Hreq in Hr.
  destruct (checkHosts_start_shape P (constructor P arg) hosts h)
    as (_ & _ & _ & _ & _ & _ & Hr0 & _). rewrite Hr0 in Hr.
  apply list_elem_of_fmap in Hr as (l' & -> & _). done.
Qed.

Lemma constructor_defaults_witness :
  get (r_heap (checkHosts sample_platform
                 (constructor sample_platform
                    {| arg_timeout := Some (Int 6000);
                       arg_defaultPort := Some (Int 8080);
                       arg_defaultAlertWindowDays := None;
                       arg_userAgent := None |})
                 [1%positive] sample_heap []))
      1%positive "port" = VNum (Int 8080).
Proof.
  destruct (constructor_defaults sample_platform
              {| arg_timeout := Some (Int 6000);
                 arg_defaultPort := Some (Int 8080);
                 arg_defaultAlertWindowDays := None;
                 arg_userAgent := None |}
              [1%positive] sample_heap [] 1%positive) as (Hp & _).
  - sample_hosts.
  - left.
  - reflexivity.
  - reflexivity.
  - reflexivity.
  - exact Hp.
Defined.

(** X16.  The outcome of [checkHosts] is final: once its promise is
    fulfilled or rejected, no later response or error changes it (a late
    error does not undo a result, a late response does not undo a
    rejection). *)
Theorem checkHosts_outcome_final (P : Platform) (cfg : Config)
    (hosts : list loc) (h : heap) (events later : list Event) :
  r_all (checkHosts P cfg hosts h events) ≠ Pending →
  r_all (checkHosts P cfg hosts h (events ++ later))
  = r_all (checkHosts P cfg hosts h events).
Proof.
  intros Hs. unfold checkHosts in *. rewrite foldl_app.
  by apply run_all_settled.
Qed.

Lemma checkHosts_outcome_final_witness :
  r_all (checkHosts sample_platform default_config [1%positive; 2%positive]
           sample_heap
           ([ErrorEvent 1 (VStr "it failed yo") sample_now]
              ++ [Response 0 sample_cert sample_now;
                  Response 1 sample_cert sample_now]))
  = Rejected (VStr "it failed yo").
Proof.
  rewrite checkHosts_outcome_final; [reflexivity|].
  vm_compute. discriminate.
Defined.

(** ** Requests that cannot be made *)

(** A port out of range: [https.request] throws in the executor, the
    promise of [checkHosts] is rejected before any event, no request is made
    for that host, and the other host's request is made all the same. *)
Example scenario_bad_port :
  let run := checkHosts sample_platform default_config
               [3%positive; 1%positive] sample_heap3 [] in
  r_all run = Rejected (VStr "ERR_SOCKET_BAD_PORT")
  ∧ r_promises run = [Rejected (VStr "ERR_SOCKET_BAD_PORT"); Pending]
  ∧ req_options <$> r_requests run = [1%positive]
  ∧ get (r_heap run) 3%positive "method" = VStr "GET".
Proof. by repeat split. Qed.

(** A negative timeout: [setTimeout] throws for every host. *)
Example scenario_bad_timeout :
  let run := checkHosts sample_platform
               {| timeout := Int (-1); defaultPort := Int 443;
                  defaultAlertWindowDays := Int 30;
                  userAgent := "My user agent" |}
               [1%positive; 2%positive] sample_heap
               [Response 0 sample_cert sample_now] in
  r_all run = Rejected (VStr "ERR_OUT_OF_RANGE") ∧ r_requests run = [].
Proof. by repeat split. Qed.
